(** * Presence and message routing of the chat server (src/server.js)

    A shallow embedding of the socket handlers of [server.js] and of the
    private-history route, with the properties of the routing engine.

    Modelling choices, all read off the source:
    - [onlineUsers] is a JavaScript object keyed by [socket.id].  Socket ids
      are 20-character tokens, never array indices and never empty, so
      [Object.keys] and [Object.values] enumerate in insertion order: the
      registry is an association list, an assignment to an existing key
      keeps its position and a new key goes last.
    - [user.room] is [null] or the string given to [joinRoom]; the tests
      [if (user.room)] and [if (data.to_user)] are JavaScript truthiness,
      false on [null], [undefined] and on the empty string.
    - the payload [data] of a message or typing event may be absent
      ([undefined]); reading a property of it then throws a [TypeError].
    - socket.io is the delivery channel: [socket.join] and [socket.leave]
      edit the adapter's membership table, in which a socket is put in the
      room named by its own id when it connects.  [io.to(x)] reaches every
      member of the room named [x], also when [x] is a socket id;
      [socket.to(room)] reaches every member of the room that is not in the
      room named by the sender's id; [socket.emit] writes to the socket
      itself, if it is still open.  The receivers of an emit are resolved
      when it is called.  socket.io empties the rooms of a closing socket
      before it fires [disconnect], and dispatches no event of a socket
      that is not open.
    - a handler runs without interruption up to its [await], and what
      follows the [await] runs later, after any number of other events.
      The two [async] handlers are therefore in two parts: the handler up to
      and with [msg.save()], whose answer is an input of the invocation (a
      rejected [save] makes the [await] throw), and the lines after the
      [await], run when the server resolves the pending save.  What those
      lines close over is kept with the pending save; the [user] object is
      read as it is by then: through the registry while it is the object
      under [onlineUsers[socket.id]], and as it was when [registerUser] or
      [disconnect] took it out of the registry.
    - [new Date()] reads a clock given with the invocation; [joinRoom],
      which reads it twice when it leaves a room first, is given two
      readings. *)

From Stdlib Require Import String List ZArith Bool Lia.
From Stdlib Require Import Ascii Sorted Permutation.
Import ListNotations.
Open Scope string_scope.
Open Scope list_scope.

(** ** Values *)

Definition socket_id := string.

(** [if (v)] for a value that is [null]/[undefined] or a string: the string
    when the test succeeds. *)
Definition truthy (v : option string) : option string :=
  match v with
  | Some s => if String.eqb s "" then None else Some s
  | None => None
  end.

(** [s === v] for a string [s] and a value that is a string or missing. *)
Definition strict_eq (s : string) (v : option string) : bool :=
  match v with
  | Some t => String.eqb s t
  | None => false
  end.

(** The entries of [onlineUsers]: [{ username, room }]. *)
Module User.
Record t := mk { username : string; room : option string }.
End User.

(** The object a client sends with [groupMessage], [privateMessage],
    [typing] and [stopTyping]; either field may be missing. *)
Module Data.
Record t := mk { to_user : option string; message : option string }.
End Data.

(** Documents of the two collections (model/groupMessage, model/privateMessage),
    with the fields [server.js] writes and reads. *)
Module GroupMessage.
Record t := mk
  { from_user : string; room : string; message : option string; date_sent : Z }.
End GroupMessage.

Module PrivateMessage.
Record t := mk
  { from_user : string; to_user : option string; message : option string;
    date_sent : Z }.
End PrivateMessage.

(** What the server emits. *)
Module Pkt.
Inductive t :=
| roomMessage (from_user : string) (message : option string) (date_sent : Z)
| updateUsers (users : list string)
| privateMessage (from_user : string) (to_user : option string)
    (message : option string) (date_sent : Z)
| typing (from_user : string)
| stopTyping (from_user : string).
End Pkt.

(** ** The registry [onlineUsers] *)

Definition registry := list (socket_id * User.t).

(** [onlineUsers[id]] *)
Fixpoint reg_get (id : socket_id) (reg : registry) : option User.t :=
  match reg with
  | [] => None
  | (k, u) :: rest => if String.eqb k id then Some u else reg_get id rest
  end.

(** [onlineUsers[id] = u] *)
Fixpoint reg_set (id : socket_id) (u : User.t) (reg : registry) : registry :=
  match reg with
  | [] => [(id, u)]
  | (k, v) :: rest =>
      if String.eqb k id then (k, u) :: rest else (k, v) :: reg_set id u rest
  end.

(** [delete onlineUsers[id]] *)
Definition reg_delete (id : socket_id) (reg : registry) : registry :=
  filter (fun kv => negb (String.eqb (fst kv) id)) reg.

Definition room_is (room : string) (u : User.t) : bool :=
  match User.room u with
  | Some r => String.eqb r room
  | None => false
  end.

(** [Object.values(onlineUsers).filter(u => u.room === room).map(u => u.username)] *)
Definition usersInRoom (reg : registry) (room : string) : list string :=
  map User.username (filter (room_is room) (map snd reg)).

(** [Object.keys(onlineUsers).find(id => onlineUsers[id].username === to_user)] *)
Definition find_socket (reg : registry) (to_user : option string) : option socket_id :=
  find (fun id => match reg_get id reg with
                  | Some u => strict_eq (User.username u) to_user
                  | None => false
                  end)
       (map fst reg).

(** ** The socket.io adapter: which socket is in which room *)

Definition adapter := list (socket_id * string).

Definition is_member (id : socket_id) (room : string) (m : socket_id * string) : bool :=
  String.eqb (fst m) id && String.eqb (snd m) room.

Definition in_room (a : adapter) (id : socket_id) (room : string) : bool :=
  existsb (is_member id room) a.

Definition adapter_add (id : socket_id) (room : string) (a : adapter) : adapter :=
  if in_room a id room then a else a ++ [(id, room)].

Definition adapter_del (id : socket_id) (room : string) (a : adapter) : adapter :=
  filter (fun m => negb (is_member id room m)) a.

Definition adapter_delAll (id : socket_id) (a : adapter) : adapter :=
  filter (fun m => negb (String.eqb (fst m) id)) a.

Definition sockets_in (a : adapter) (room : string) : list socket_id :=
  map fst (filter (fun m => String.eqb (snd m) room) a).

(** Where an emit goes: [io.to(room)], [socket.to(room)] of the socket
    [sender], [socket.emit] of the socket [id], and [io.to(null)]. *)
Inductive target :=
| io_to (room : string)
| socket_to (sender : socket_id) (room : string)
| to_socket (id : socket_id)
| io_to_null.

(** Who receives: the members of the room; for [socket.to], those of them
    that are not in the room named by the sender's id, which is how
    socket.io leaves the sender out; for [socket.emit], the socket of the
    running handler; for [io.to(null)], nobody, rooms being named by
    strings. *)
Definition receivers (a : adapter) (t : target) : list socket_id :=
  match t with
  | io_to room => sockets_in a room
  | socket_to sender room =>
      filter (fun id => negb (in_room a id sender)) (sockets_in a room)
  | to_socket id => [id]
  | io_to_null => []
  end.

(** [io.to(v)] for a value that is a room name or [null]. *)
Definition io_to_value (v : option string) : target :=
  match v with
  | Some room => io_to room
  | None => io_to_null
  end.

(** ** State, effects and the handler monad *)

Record state := mkState
  { onlineUsers : registry;
    rooms : adapter;
    groupMessages : list GroupMessage.t;
    privateMessages : list PrivateMessage.t }.

Definition init : state :=
  {| onlineUsers := []; rooms := []; groupMessages := []; privateMessages := [] |}.

(** The observable effects of a handler, in the order they happen. *)
Inductive action :=
| SavedGroup (m : GroupMessage.t)
| SavedPrivate (m : PrivateMessage.t)
| Emit (t : target) (p : Pkt.t) (to : list socket_id).

Inductive exn := TypeError | StoreError.

(** What the outside gives one invocation: the clock read by [new Date()],
    the answer of [msg.save()], [Some date_sent] or a rejection, and the
    reading of the clock that a [joinRoom] takes first, for the notice to
    the room it leaves, when it takes two. *)
Record world := mkWorld { now : Z; save : option Z; earlier : Z }.

Inductive completion (A : Type) :=
| Normal (a : A)
| Thrown (e : exn).
Arguments Normal {A} a.
Arguments Thrown {A} e.

Record run (A : Type) := mkRun
  { outcome : completion A; final : state; trace : list action }.
Arguments mkRun {A} _ _ _.
Arguments outcome {A} _.
Arguments final {A} _.
Arguments trace {A} _.

Definition M (A : Type) := state -> run A.

Definition ret {A} (a : A) : M A :=
  fun s => mkRun (Normal a) s [].

Definition bind {A B} (m : M A) (k : A -> M B) : M B :=
  fun s =>
    match m s with
    | mkRun (Normal a) s1 t1 =>
        match k a s1 with
        | mkRun o s2 t2 => mkRun o s2 (t1 ++ t2)
        end
    | mkRun (Thrown e) s1 t1 => mkRun (Thrown e) s1 t1
    end.

Notation "x <- m ;; k" := (bind m (fun x => k))
  (at level 61, m at next level, right associativity).
Notation "m ;; k" := (bind m (fun _ => k))
  (at level 61, right associativity).

Definition throw {A} (e : exn) : M A :=
  fun s => mkRun (Thrown e) s [].

Definition read {A} (f : state -> A) : M A :=
  fun s => mkRun (Normal (f s)) s [].

Definition write (f : state -> state) : M unit :=
  fun s => mkRun (Normal tt) (f s) [].

Definition with_users (f : registry -> registry) (s : state) : state :=
  {| onlineUsers := f (onlineUsers s); rooms := rooms s;
     groupMessages := groupMessages s; privateMessages := privateMessages s |}.

Definition with_rooms (f : adapter -> adapter) (s : state) : state :=
  {| onlineUsers := onlineUsers s; rooms := f (rooms s);
     groupMessages := groupMessages s; privateMessages := privateMessages s |}.

(** [const user = onlineUsers[socket.id]] *)
Definition lookup (id : socket_id) : M (option User.t) :=
  read (fun s => reg_get id (onlineUsers s)).

(** [user.room = r], on the object stored under [id] *)
Definition assign_room (id : socket_id) (user : User.t) (r : option string) : M unit :=
  write (with_users (reg_set id (User.mk (User.username user) r))).

Definition getUsersInRoom (room : string) : M (list string) :=
  read (fun s => usersInRoom (onlineUsers s) room).

Definition socket_join (id : socket_id) (room : string) : M unit :=
  write (with_rooms (adapter_add id room)).

Definition socket_leave (id : socket_id) (room : string) : M unit :=
  write (with_rooms (adapter_del id room)).

Definition socket_leaveAll (id : socket_id) : M unit :=
  write (with_rooms (adapter_delAll id)).

Definition emit (t : target) (p : Pkt.t) : M unit :=
  fun s => mkRun (Normal tt) s [Emit t p (receivers (rooms s) t)].

(** [data.x] on a payload that may be [undefined] *)
Definition property {A} (data : option Data.t) (f : Data.t -> A) : M A :=
  match data with
  | Some d => ret (f d)
  | None => throw TypeError
  end.

(** [await msg.save()] for a group message; gives [msg.date_sent] *)
Definition save_group (w : world) (from_user room : string) (message : option string)
  : M Z :=
  match save w with
  | Some d =>
      fun s =>
        let m := GroupMessage.mk from_user room message d in
        mkRun (Normal d)
          {| onlineUsers := onlineUsers s; rooms := rooms s;
             groupMessages := groupMessages s ++ [m];
             privateMessages := privateMessages s |}
          [SavedGroup m]
  | None => throw StoreError
  end.

(** [await msg.save()] for a private message *)
Definition save_private (w : world) (from_user : string) (to_user message : option string)
  : M Z :=
  match save w with
  | Some d =>
      fun s =>
        let m := PrivateMessage.mk from_user to_user message d in
        mkRun (Normal d)
          {| onlineUsers := onlineUsers s; rooms := rooms s;
             groupMessages := groupMessages s;
             privateMessages := privateMessages s ++ [m] |}
          [SavedPrivate m]
  | None => throw StoreError
  end.

(** ** The socket handlers, [io.on('connection', socket => ...)] *)

Definition system_notice_at (user : User.t) (what : string) (date : Z) : Pkt.t :=
  Pkt.roomMessage "System" (Some (User.username user ++ what)%string) date.

Definition system_notice (user : User.t) (what : string) (w : world) : Pkt.t :=
  system_notice_at user what (now w).

(** [socket.on('registerUser', username => ...)] *)
Definition registerUser (id : socket_id) (username : string) : M unit :=
  write (with_users (reg_set id (User.mk username None))).

(** [socket.on('joinRoom', room => ...)] *)
Definition joinRoom (id : socket_id) (room : string) (w : world) : M unit :=
  user <- lookup id ;;
  match user with
  | None => ret tt
  | Some user =>
      match truthy (User.room user) with
      | Some old =>
          socket_leave id old ;;
          emit (io_to old)
               (system_notice_at user " has left the room" (earlier w)) ;;
          users <- getUsersInRoom old ;;
          emit (io_to old) (Pkt.updateUsers users)
      | None => ret tt
      end ;;
      assign_room id user (Some room) ;;
      socket_join id room ;;
      emit (io_to room) (system_notice user " has joined the room" w) ;;
      users <- getUsersInRoom room ;;
      emit (io_to room) (Pkt.updateUsers users)
  end.

(** [socket.on('leaveRoom', () => ...)] *)
Definition leaveRoom (id : socket_id) (w : world) : M unit :=
  user <- lookup id ;;
  match user with
  | None => ret tt
  | Some user =>
      match truthy (User.room user) with
      | None => ret tt
      | Some room =>
          socket_leave id room ;;
          assign_room id user None ;;
          emit (io_to room) (system_notice user " has left the room" w) ;;
          users <- getUsersInRoom room ;;
          emit (io_to room) (Pkt.updateUsers users)
      end
  end.

(** [socket.on('groupMessage', async data => ...)], up to and with
    [await msg.save()] *)
Definition groupMessage (id : socket_id) (data : option Data.t) (w : world) : M unit :=
  user <- lookup id ;;
  match user with
  | None => ret tt
  | Some user =>
      match truthy (User.room user) with
      | None => ret tt
      | Some room =>
          message <- property data Data.message ;;
          date_sent <- save_group w (User.username user) room message ;;
          ret tt
      end
  end.

(** The lines of the [groupMessage] handler after the [await]:
    [io.to(user.room).emit('roomMessage', ...)], with [user.room] and
    [user.username] read from the object as it is now, [data.message] and
    [msg.date_sent] as the handler has them. *)
Definition groupMessage_resumed (user : User.t) (message : option string)
           (date_sent : Z) : M unit :=
  emit (io_to_value (User.room user))
       (Pkt.roomMessage (User.username user) message date_sent).

(** [socket.on('privateMessage', async data => ...)], up to and with
    [await msg.save()] *)
Definition privateMessage (id : socket_id) (data : option Data.t) (w : world) : M unit :=
  user <- lookup id ;;
  match user with
  | None => ret tt
  | Some user =>
      to_user <- property data Data.to_user ;;
      message <- property data Data.message ;;
      date_sent <- save_private w (User.username user) to_user message ;;
      ret tt
  end.

(** [socket.emit(...)]: to the socket itself, when it is still open. *)
Definition socket_emit (id : socket_id) (open : bool) (p : Pkt.t) : M unit :=
  fun s =>
    mkRun (Normal tt) s
      [Emit (to_socket id) p
         (if open then receivers (rooms s) (to_socket id) else [])].

(** The lines of the [privateMessage] handler after the [await]: the
    recipient is looked up in [onlineUsers] as it is now and reached
    through [io.to(recipientSocketId)], then the sender's own socket gets
    the message back. *)
Definition privateMessage_resumed (id : socket_id) (open : bool) (user : User.t)
           (to_user message : option string) (date_sent : Z) : M unit :=
  recipientSocketId <- read (fun s => find_socket (onlineUsers s) to_user) ;;
  let pkt := Pkt.privateMessage (User.username user) to_user message date_sent in
  match recipientSocketId with
  | Some rid => emit (io_to rid) pkt
  | None => ret tt
  end ;;
  socket_emit id open pkt.

(** [socket.on('typing', data => ...)]: [data.to_user] is read unguarded *)
Definition typing (id : socket_id) (data : option Data.t) : M unit :=
  user <- lookup id ;;
  match user with
  | None => ret tt
  | Some user =>
      to_user <- property data Data.to_user ;;
      match truthy to_user with
      | Some _ =>
          recipientSocketId <- read (fun s => find_socket (onlineUsers s) to_user) ;;
          match recipientSocketId with
          | Some rid => emit (io_to rid) (Pkt.typing (User.username user))
          | None => ret tt
          end
      | None =>
          match truthy (User.room user) with
          | Some room => emit (socket_to id room) (Pkt.typing (User.username user))
          | None => ret tt
          end
      end
  end.

(** [data && data.to_user] *)
Definition guarded_to_user (data : option Data.t) : option string :=
  match data with
  | Some d => Data.to_user d
  | None => None
  end.

(** [socket.on('stopTyping', data => ...)] *)
Definition stopTyping (id : socket_id) (data : option Data.t) : M unit :=
  user <- lookup id ;;
  match user with
  | None => ret tt
  | Some user =>
      match truthy (guarded_to_user data) with
      | Some _ =>
          recipientSocketId <-
            read (fun s => find_socket (onlineUsers s) (guarded_to_user data)) ;;
          match recipientSocketId with
          | Some rid => emit (io_to rid) (Pkt.stopTyping (User.username user))
          | None => ret tt
          end
      | None =>
          match truthy (User.room user) with
          | Some room => emit (socket_to id room) (Pkt.stopTyping (User.username user))
          | None => ret tt
          end
      end
  end.

(** [socket.on('disconnect', () => ...)] *)
Definition disconnect (id : socket_id) (w : world) : M unit :=
  user <- lookup id ;;
  match user with
  | Some user =>
      match truthy (User.room user) with
      | Some room =>
          emit (io_to room) (system_notice user " has disconnected" w) ;;
          users <- getUsersInRoom room ;;
          emit (io_to room) (Pkt.updateUsers users)
      | None => ret tt
      end
  | None => ret tt
  end ;;
  write (with_users (reg_delete id)).

(** ** Events and runs *)

Inductive event :=
| Ev_registerUser (username : string)
| Ev_joinRoom (room : string)
| Ev_leaveRoom
| Ev_groupMessage (data : option Data.t)
| Ev_privateMessage (data : option Data.t)
| Ev_typing (data : option Data.t)
| Ev_stopTyping (data : option Data.t)
| Ev_disconnect.

(** The handler socket.io calls for an event of socket [id]; the socket
    has left all its rooms when [disconnect] fires. *)
Definition handle (id : socket_id) (ev : event) (w : world) : M unit :=
  match ev with
  | Ev_registerUser username => registerUser id username
  | Ev_joinRoom room => joinRoom id room w
  | Ev_leaveRoom => leaveRoom id w
  | Ev_groupMessage data => groupMessage id data w
  | Ev_privateMessage data => privateMessage id data w
  | Ev_typing data => typing id data
  | Ev_stopTyping data => stopTyping id data
  | Ev_disconnect => socket_leaveAll id ;; disconnect id w
  end.

Record input := mkInput { from : socket_id; ev : event; env : world }.

Definition step (s : state) (i : input) : state :=
  final (handle (from i) (ev i) (env i) s).

(** The events are processed one after the other, from the left. *)
Definition process (ins : list input) (s : state) : state :=
  fold_left step ins s.

(** ** The server: open sockets and pending saves *)

(** A save that was accepted, and with it what the lines after the
    [await] use of the handler's [data] and [msg]. *)
Inductive awaited :=
| group_saved (m : GroupMessage.t)
| private_saved (m : PrivateMessage.t).

(** The saves a handler made, in order. *)
Fixpoint awaiting (l : list action) : list awaited :=
  match l with
  | [] => []
  | SavedGroup m :: rest => group_saved m :: awaiting rest
  | SavedPrivate m :: rest => private_saved m :: awaiting rest
  | Emit _ _ _ :: rest => awaiting rest
  end.

(** A handler waiting at its [await]: the socket it runs for, the save it
    waits for, and the [user] object it holds: [None] while that object is
    the one under [onlineUsers[owner]], to be read there; the object as it
    was when it left the registry otherwise. *)
Record task := mkTask
  { owner : socket_id; held : option User.t; saved : awaited }.

(** The server: the state of the handlers, the sockets that are open, the
    ids of those that are closed, and the handlers that wait. *)
Record server := mkServer
  { st : state; sockets : list socket_id; closed : list socket_id;
    pending : list task }.

Definition boot : server :=
  {| st := init; sockets := []; closed := []; pending := [] |}.

Definition is_open (sv : server) (id : socket_id) : bool :=
  existsb (String.eqb id) (sockets sv).

Definition was_open (sv : server) (id : socket_id) : bool :=
  existsb (String.eqb id) (closed sv).

(** The [user] object of a waiting handler, as it is now. *)
Definition object_of (s : state) (t : task) : option User.t :=
  match held t with
  | Some user => Some user
  | None => reg_get (owner t) (onlineUsers s)
  end.

(** The object under [onlineUsers[id]] is about to leave the registry: the
    handlers of [id] that wait keep it as it is. *)
Definition freeze (id : socket_id) (s : state) (t : task) : task :=
  if String.eqb (owner t) id
  then mkTask (owner t) (object_of s t) (saved t)
  else t.

(** [registerUser] puts a new object under the key and [disconnect]
    deletes the key. *)
Definition replaces_object (e : event) : bool :=
  match e with
  | Ev_registerUser _ | Ev_disconnect => true
  | _ => false
  end.

Definition closes (e : event) : bool :=
  match e with
  | Ev_disconnect => true
  | _ => false
  end.

(** [io.on('connection', socket => ...)]: the socket is open, in the room
    named by its id, and its handlers are in place.  The id of a socket is
    new: no socket has or had it. *)
Definition connect (id : socket_id) (sv : server) : server :=
  if is_open sv id || was_open sv id then sv
  else {| st := with_rooms (adapter_add id id) (st sv);
          sockets := sockets sv ++ [id];
          closed := closed sv;
          pending := pending sv |}.

(** An event of a socket: dispatched to its handler if the socket is open;
    the saves the handler made are pending afterwards. *)
Definition receive (sv : server) (i : input) : server :=
  if is_open sv (from i) then
    let r := handle (from i) (ev i) (env i) (st sv) in
    {| st := final r;
       sockets :=
         if closes (ev i)
         then filter (fun id => negb (String.eqb id (from i))) (sockets sv)
         else sockets sv;
       closed := if closes (ev i) then closed sv ++ [from i] else closed sv;
       pending :=
         (if replaces_object (ev i)
          then map (freeze (from i) (st sv)) (pending sv)
          else pending sv)
         ++ map (mkTask (from i) None) (awaiting (trace r)) |}
  else sv.

(** The lines after the [await] of a waiting handler, run now. *)
Definition resume (sv : server) (t : task) : run unit :=
  match object_of (st sv) t with
  | Some user =>
      match saved t with
      | group_saved m =>
          groupMessage_resumed user (GroupMessage.message m)
            (GroupMessage.date_sent m) (st sv)
      | private_saved m =>
          privateMessage_resumed (owner t) (is_open sv (owner t)) user
            (PrivateMessage.to_user m) (PrivateMessage.message m)
            (PrivateMessage.date_sent m) (st sv)
      end
  | None => mkRun (Normal tt) (st sv) []
  end.

(** The [n]-th pending save resolves: its handler goes on and is done. *)
Definition resolve (n : nat) (sv : server) : server :=
  match nth_error (pending sv) n with
  | Some t =>
      {| st := final (resume sv t);
         sockets := sockets sv;
         closed := closed sv;
         pending := firstn n (pending sv) ++ skipn (S n) (pending sv) |}
  | None => sv
  end.

(** What happens to the server: a socket connects, an event of a socket
    arrives, a pending save resolves; in any order. *)
Inductive happening :=
| Connects (id : socket_id)
| Sends (i : input)
| Resolves (n : nat).

Definition occur (sv : server) (h : happening) : server :=
  match h with
  | Connects id => connect id sv
  | Sends i => receive sv i
  | Resolves n => resolve n sv
  end.

Definition serve (hs : list happening) (sv : server) : server :=
  fold_left occur hs sv.

Definition served (sv : server) : Prop :=
  exists hs, serve hs boot = sv.

(** The states of the registry, the adapter and the stores that the server
    can be in. *)
Definition reachable (s : state) : Prop :=
  exists sv, served sv /\ st sv = s.

(** ** The private-history route, [GET /api/messages/private/:user1/:user2] *)

(** The [$or] filter of the query. *)
Definition between (user1 user2 : string) (m : PrivateMessage.t) : bool :=
  (String.eqb (PrivateMessage.from_user m) user1
   && strict_eq user2 (PrivateMessage.to_user m))
  || (String.eqb (PrivateMessage.from_user m) user2
      && strict_eq user1 (PrivateMessage.to_user m)).

(** [.sort({ date_sent: 1 })]: ascending, ties in the order found. *)
Fixpoint insert_by_date (m : PrivateMessage.t) (l : list PrivateMessage.t)
  : list PrivateMessage.t :=
  match l with
  | [] => [m]
  | x :: rest =>
      if (PrivateMessage.date_sent m <=? PrivateMessage.date_sent x)%Z
      then m :: l
      else x :: insert_by_date m rest
  end.

Definition sort_by_date (l : list PrivateMessage.t) : list PrivateMessage.t :=
  fold_right insert_by_date [] l.

Definition private_history (coll : list PrivateMessage.t) (user1 user2 : string)
  : list PrivateMessage.t :=
  firstn 100 (sort_by_date (filter (between user1 user2) coll)).

(** ** What holds of every reachable state *)

(** A socket id is a key of [onlineUsers] at most once. *)
Definition keys_unique (s : state) : Prop :=
  NoDup (map fst (onlineUsers s)).

(** A session recorded in a room has joined that room in the adapter. *)
Definition occupants_joined (s : state) : Prop :=
  forall id u r,
    reg_get id (onlineUsers s) = Some u -> User.room u = Some r ->
    in_room (rooms s) id r = true.

Definition consistent (s : state) : Prop :=
  keys_unique s /\ occupants_joined s.

(** Who sent the document of a pending save. *)
Definition sender_of (a : awaited) : string :=
  match a with
  | group_saved m => GroupMessage.from_user m
  | private_saved m => PrivateMessage.from_user m
  end.

Definition is_stored (s : state) (a : awaited) : Prop :=
  match a with
  | group_saved m => In m (groupMessages s)
  | private_saved m => In m (privateMessages s)
  end.

(** A pending save is of a document that is in its collection, and the
    handler that waits for it holds a [user] object, under whose name the
    document was sent. *)
Definition task_sound (sv : server) (t : task) : Prop :=
  is_stored (st sv) (saved t)
  /\ exists user, object_of (st sv) t = Some user
                  /\ User.username user = sender_of (saved t).

(** What holds of the server after any run: the registry and the adapter
    are consistent, a socket that has an entry is open, and the pending
    saves are sound. *)
Definition sound (sv : server) : Prop :=
  consistent (st sv)
  /\ (forall id u, reg_get id (onlineUsers (st sv)) = Some u ->
                   is_open sv id = true)
  /\ (forall t, In t (pending sv) -> task_sound sv t).

(** ** Resolving a display name *)

(** [id] is the first entry of the registry, in its order, whose
    [username] is [to_user]. *)
Definition first_match (reg : registry) (to_user : option string) (id : socket_id)
  : Prop :=
  exists before u after,
    reg = before ++ (id, u) :: after
    /\ strict_eq (User.username u) to_user = true
    /\ forall id' u', In (id', u') before ->
                      strict_eq (User.username u') to_user = false.

(** No entry of the registry has [to_user] as its [username]. *)
Definition no_match (reg : registry) (to_user : option string) : Prop :=
  forall id u, reg_get id reg = Some u ->
               strict_eq (User.username u) to_user = false.

(** ** Routing of a typing notice *)

(** What the run [r] of a [typing] or [stopTyping] handler did in state [s]
    for the session [u] of socket [id], when the event names [to_user] and
    the notice is [pkt]: the state is untouched; with a name, the notice
    goes to the room named by the id of the first session under that name,
    and nowhere when there is none; without a name and in a room, it goes
    to the members of the room that are not in the room named by the
    sender's id: not to the sender while it is in that room, and to every
    other session recorded in the room that is outside of it; otherwise
    nothing is sent. *)
Definition notice_routed (s : state) (id : socket_id) (u : User.t)
           (to_user : option string) (pkt : Pkt.t) (r : run unit) : Prop :=
  outcome r = Normal tt
  /\ final r = s
  /\ match truthy to_user with
     | Some _ =>
         (forall rid, first_match (onlineUsers s) to_user rid ->
                      trace r = [Emit (io_to rid) pkt (sockets_in (rooms s) rid)])
         /\ (no_match (onlineUsers s) to_user -> trace r = [])
     | None =>
         match truthy (User.room u) with
         | Some room =>
             exists to,
               trace r = [Emit (socket_to id room) pkt to]
               /\ (forall id',
                     In id' to <->
                     in_room (rooms s) id' room = true
                     /\ in_room (rooms s) id' id = false)
               /\ (in_room (rooms s) id id = true -> ~ In id to)
               /\ (forall id' u',
                     reg_get id' (onlineUsers s) = Some u' ->
                     User.room u' = Some room ->
                     in_room (rooms s) id' id = false ->
                     In id' to)
         | None => trace r = []
         end
     end.

(** ** Counting what a trace sends *)

Definition is_roomMessage (a : action) : bool :=
  match a with
  | Emit _ (Pkt.roomMessage _ _ _) _ => true
  | _ => false
  end.

Definition is_updateUsers (a : action) : bool :=
  match a with
  | Emit _ (Pkt.updateUsers _) _ => true
  | _ => false
  end.

Definition count (f : action -> bool) (l : list action) : nat :=
  length (filter f l).

(** ** Events that start or end the session of a socket *)

Definition registers (id : socket_id) (i : input) : bool :=
  String.eqb (from i) id
  && match ev i with
     | Ev_registerUser _ => true
     | _ => false
     end.

Definition disconnects (id : socket_id) (i : input) : bool :=
  String.eqb (from i) id
  && match ev i with
     | Ev_disconnect => true
     | _ => false
     end.

(** ** Sample runs *)

Definition w0 : world := mkWorld 1000 (Some 1001%Z) 1000.

(** alice and bob, both in "sports". *)
Definition two_in_sports : list input :=
  [ mkInput "s1" (Ev_registerUser "alice") w0;
    mkInput "s1" (Ev_joinRoom "sports") w0;
    mkInput "s2" (Ev_registerUser "bob") w0;
    mkInput "s2" (Ev_joinRoom "sports") w0 ].

(** Two sessions under one display name, in different rooms. *)
Definition two_alices : list input :=
  [ mkInput "s1" (Ev_registerUser "alice") w0;
    mkInput "s2" (Ev_registerUser "alice") w0;
    mkInput "s1" (Ev_joinRoom "sports") w0;
    mkInput "s2" (Ev_joinRoom "devops") w0 ].

Definition alice_alone : list input :=
  [ mkInput "s1" (Ev_registerUser "alice") w0 ].

(** ** The room catalog and the room-history route *)

(** [const ROOMS = [...]], served as it is by [GET /api/rooms]. *)
Definition ROOMS : list string :=
  ["devops"; "cloud computing"; "covid19"; "sports"; "nodeJS"].

(** [.sort({ date_sent: 1 })] on any collection: insertion by the date,
    a document going before the first one that is not older. *)
Fixpoint insert_on {A : Type} (date : A -> Z) (m : A) (l : list A) : list A :=
  match l with
  | [] => [m]
  | x :: rest =>
      if (date m <=? date x)%Z then m :: l else x :: insert_on date m rest
  end.

Definition sort_on {A : Type} (date : A -> Z) (l : list A) : list A :=
  fold_right (insert_on date) [] l.

(** The filter [{ room: req.params.room }]. *)
Definition in_the_room (room : string) (m : GroupMessage.t) : bool :=
  String.eqb (GroupMessage.room m) room.

(** [GET /api/messages/room/:room]:
    [GroupMessage.find({ room }).sort({ date_sent: 1 }).limit(100)]. *)
Definition room_history (coll : list GroupMessage.t) (room : string)
  : list GroupMessage.t :=
  firstn 100 (sort_on GroupMessage.date_sent (filter (in_the_room room) coll)).

(** A list is in ascending order of [date]. *)
Definition ascending {A : Type} (date : A -> Z) (l : list A) : Prop :=
  StronglySorted (fun x y => (date x <= date y)%Z) l.

(** The documents of [l] strictly older than [m]. *)
Definition older_than {A : Type} (date : A -> Z) (m : A) (l : list A) : list A :=
  filter (fun x => (date x <? date m)%Z) l.

(** ** Accounts: [POST /api/signup] and [POST /api/login] *)

(** Documents of the user collection (model/user), with the fields
    [server.js] writes and reads. *)
Module Account.
Record t := mk
  { username : string; firstname : string; lastname : string;
    password : string }.
End Account.

(** The body of a signup request; a login request uses [username] and
    [password]. *)
Module Body.
Record t := mk
  { username : string; firstname : string; lastname : string;
    password : string }.
End Body.

(** What [res.status(...).json(...)] sends. *)
Inductive reply :=
| error (status : nat) (text : string)
| created (text : string)
| logged_in (text : string) (username firstname : string).

(** How [user.save()] ends. *)
Inductive saving :=
| Stored
| ValidationError (messages : list string)
| OtherError.

(** What the outside gives one request: whether the database answers the
    [findOne], the salt [bcrypt.hash] draws, and how [save] ends. *)
Record request_world := mkRequestWorld
  { db_down : bool; salt : string; save_user : saving }.

(** [User.findOne({ username })] *)
Definition findOne (username : string) (users : list Account.t)
  : option Account.t :=
  find (fun u => String.eqb (Account.username u) username) users.

(** [app.post('/api/signup', ...)]; [hash salt password] stands for
    [bcrypt.hash(password, 10)].  Gives the reply and the collection. *)
Definition signup (hash : string -> string -> string)
           (body : Body.t) (w : request_world) (users : list Account.t)
  : reply * list Account.t :=
  if db_down w then (error 500 "Server error", users)
  else
    match findOne (Body.username body) users with
    | Some _ => (error 400 "Username already exists", users)
    | None =>
        let hashedPassword := hash (salt w) (Body.password body) in
        let user := Account.mk (Body.username body) (Body.firstname body)
                      (Body.lastname body) hashedPassword in
        match save_user w with
        | Stored => (created "User created successfully", users ++ [user])
        | ValidationError messages =>
            (error 400 (String.concat ", " messages), users)
        | OtherError => (error 500 "Server error", users)
        end
    end.

(** [app.post('/api/login', ...)]; [compare password hash] stands for
    [bcrypt.compare(password, user.password)]. *)
Definition login (compare : string -> string -> bool)
           (body : Body.t) (w : request_world) (users : list Account.t)
  : reply :=
  if db_down w then error 500 "Server error"
  else
    match findOne (Body.username body) users with
    | None => error 401 "Invalid username or password"
    | Some user =>
        if compare (Body.password body) (Account.password user)
        then logged_in "Login successful" (Account.username user)
               (Account.firstname user)
        else error 401 "Invalid username or password"
    end.

(** Signup requests served one after the other. *)
Fixpoint signups (hash : string -> string -> string)
         (reqs : list (Body.t * request_world)) (users : list Account.t)
  : list Account.t :=
  match reqs with
  | [] => users
  | (body, w) :: rest => signups hash rest (snd (signup hash body w users))
  end.

(** A stand-in for bcrypt in examples: the hash is the salt, a separator
    and the password; comparing hashes again with the salt of the hash. *)
Definition toy_hash (salt password : string) : string :=
  (salt ++ "$" ++ password)%string.

Fixpoint toy_salt (hash : string) : string :=
  match hash with
  | EmptyString => EmptyString
  | String c rest =>
      if Ascii.eqb c "$"%char then EmptyString else String c (toy_salt rest)
  end.

Definition toy_compare (password hash : string) : bool :=
  String.eqb (toy_hash (toy_salt hash) password) hash.

(** ** More sample runs *)

(** alice is in "sports" and registers again: the registry forgets the
    room, the adapter does not. *)
Definition alice_again : list input :=
  [ mkInput "s1" (Ev_registerUser "alice") w0;
    mkInput "s1" (Ev_joinRoom "sports") w0;
    mkInput "s2" (Ev_registerUser "bob") w0;
    mkInput "s2" (Ev_joinRoom "sports") w0;
    mkInput "s1" (Ev_registerUser "alice") w0 ].

Definition w_down : world := mkWorld 1000 None 1000.

(** The same runs on the server, the sockets having connected. *)
Definition two_in_sports_live : list happening :=
  Connects "s1" :: Connects "s2" :: map Sends two_in_sports.

Definition two_alices_live : list happening :=
  Connects "s1" :: Connects "s2" :: map Sends two_alices.

Definition alice_alone_live : list happening :=
  Connects "s1" :: map Sends alice_alone.


(** ** Tactics: unfold a handler, split on what it tests *)

Ltac handler_steps :=
  unfold handle, registerUser, joinRoom, leaveRoom, groupMessage,
    privateMessage, typing, stopTyping, disconnect, lookup, getUsersInRoom,
    assign_room, socket_join, socket_leave, socket_leaveAll, emit, property,
    save_group, save_private, read, write, bind, ret, throw;
  cbn.

Ltac case_split :=
  repeat match goal with
         | |- context [match ?x with _ => _ end] =>
             lazymatch x with
             | context [match _ with _ => _ end] => fail
             | _ => destruct x eqn:?; cbn
             end
         end.

(** * Properties *)

(** ** The registry as a map *)

Section RegistryFacts.

Variables (id : socket_id) (u : User.t).

Lemma reg_get_set_same (reg : registry) :
  reg_get id (reg_set id u reg) = Some u.
Proof.
  induction reg as [|[k v] rest IH]; cbn.
  - now rewrite String.eqb_refl.
  - destruct (String.eqb k id) eqn:E; cbn; rewrite E; auto.
Qed.

Lemma reg_get_set_other (id' : socket_id) (reg : registry) :
  id' <> id -> reg_get id' (reg_set id u reg) = reg_get id' reg.
Proof.
  intros Hne. induction reg as [|[k v] rest IH]; cbn.
  - destruct (String.eqb_spec id id'); congruence.
  - destruct (String.eqb_spec k id) as [->|Hk]; cbn.
    + destruct (String.eqb_spec id id'); congruence.
    + now rewrite IH.
Qed.

Lemma reg_get_delete_same (reg : registry) :
  reg_get id (reg_delete id reg) = None.
Proof.
  unfold reg_delete. induction reg as [|[k v] rest IH]; cbn; auto.
  destruct (String.eqb k id) eqn:E; cbn; auto. now rewrite E.
Qed.

Lemma reg_get_delete_other (id' : socket_id) (reg : registry) :
  id' <> id -> reg_get id' (reg_delete id reg) = reg_get id' reg.
Proof.
  intros Hne. unfold reg_delete.
  induction reg as [|[k v] rest IH]; cbn; auto.
  destruct (String.eqb_spec k id) as [->|Hk]; cbn.
  - destruct (String.eqb_spec id id'); [congruence | exact IH].
  - now rewrite IH.
Qed.

Lemma reg_delete_absent (reg : registry) :
  reg_get id reg = None -> reg_delete id reg = reg.
Proof.
  unfold reg_delete. induction reg as [|[k v] rest IH]; cbn; auto.
  destruct (String.eqb k id) eqn:E; cbn; [discriminate|].
  intros H. now rewrite (IH H).
Qed.

Lemma reg_get_In (reg : registry) :
  reg_get id reg = Some u -> In (id, u) reg.
Proof.
  induction reg as [|[k v] rest IH]; cbn; [discriminate|].
  destruct (String.eqb_spec k id) as [->|Hk]; intros H.
  - left. congruence.
  - right. auto.
Qed.

Lemma reg_get_None_keys (reg : registry) :
  reg_get id reg = None <-> ~ In id (map fst reg).
Proof.
  induction reg as [|[k v] rest IH]; cbn; [tauto|].
  destruct (String.eqb_spec k id) as [->|Hk].
  - split; [discriminate | tauto].
  - rewrite IH. tauto.
Qed.

Lemma In_reg_get (reg : registry) :
  NoDup (map fst reg) -> In (id, u) reg -> reg_get id reg = Some u.
Proof.
  induction reg as [|[k v] rest IH]; cbn; [tauto|].
  intros Hnd [E|Hin].
  - inversion E; subst. now rewrite String.eqb_refl.
  - inversion Hnd as [|? ? Hk Hrest]; subst.
    destruct (String.eqb_spec k id) as [->|_]; auto.
    exfalso. apply Hk. change id with (fst (id, u)). now apply in_map.
Qed.

Lemma keys_reg_set (reg : registry) :
  map fst (reg_set id u reg) =
  match reg_get id reg with
  | Some _ => map fst reg
  | None => map fst reg ++ [id]
  end.
Proof.
  induction reg as [|[k v] rest IH]; cbn; auto.
  destruct (String.eqb k id) eqn:E; cbn; auto.
  rewrite IH. now destruct (reg_get id rest).
Qed.

Lemma NoDup_reg_set (reg : registry) :
  NoDup (map fst reg) -> NoDup (map fst (reg_set id u reg)).
Proof.
  intros Hnd. rewrite keys_reg_set.
  destruct (reg_get id reg) eqn:E; auto.
  apply reg_get_None_keys in E.
  apply NoDup_rev in Hnd. rewrite <- (rev_involutive (_ ++ _)).
  apply NoDup_rev. rewrite rev_app_distr. cbn.
  constructor; auto. now rewrite <- in_rev.
Qed.

Lemma NoDup_reg_delete (reg : registry) :
  NoDup (map fst reg) -> NoDup (map fst (reg_delete id reg)).
Proof.
  unfold reg_delete. induction reg as [|[k v] rest IH]; cbn; auto.
  intros Hnd. inversion Hnd as [|? ? Hk Hrest]; subst.
  destruct (String.eqb k id); cbn; auto.
  constructor; auto.
  intros Hin. apply Hk. apply in_map_iff in Hin as [[k' v'] [E Hin]].
  apply filter_In in Hin as [Hin _]. cbn in E. subst k'.
  change k with (fst (k, v')). now apply in_map.
Qed.

End RegistryFacts.

(** Who is listed in a room: exactly the names of the entries whose
    [room] is that room. *)
Lemma usersInRoom_In (reg : registry) (room name : string) :
  In name (usersInRoom reg room) <->
  exists id u, In (id, u) reg /\ User.username u = name /\ User.room u = Some room.
Proof.
  unfold usersInRoom. rewrite in_map_iff. split.
  - intros [u [Hn Hin]]. apply filter_In in Hin as [Hin Hr].
    apply in_map_iff in Hin as [[id u'] [E Hin]]. cbn in E. subst u'.
    exists id, u. repeat split; auto.
    unfold room_is in Hr. destruct (User.room u) as [r|]; [|discriminate].
    apply String.eqb_eq in Hr. now subst.
  - intros [id [u [Hin [Hn Hr]]]]. exists u. split; auto.
    apply filter_In. split.
    + change u with (snd (id, u)). now apply in_map.
    + unfold room_is. rewrite Hr. apply String.eqb_refl.
Qed.

(** ** The adapter as a relation *)

Lemma filter_idem {A} (f : A -> bool) (l : list A) :
  filter f (filter f l) = filter f l.
Proof.
  induction l as [|x l IH]; cbn; auto.
  destruct (f x) eqn:E; cbn; auto. now rewrite E, IH.
Qed.

Lemma in_room_In (a : adapter) (id : socket_id) (room : string) :
  in_room a id room = true <-> In (id, room) a.
Proof.
  unfold in_room. rewrite existsb_exists. split.
  - intros [[i r] [Hin Hm]]. unfold is_member in Hm. cbn in Hm.
    apply andb_true_iff in Hm as [Hi Hr].
    apply String.eqb_eq in Hi, Hr. now subst.
  - intros Hin. exists (id, room). split; auto.
    unfold is_member. cbn. now rewrite !String.eqb_refl.
Qed.

Lemma sockets_in_In (a : adapter) (id : socket_id) (room : string) :
  In id (sockets_in a room) <-> in_room a id room = true.
Proof.
  rewrite in_room_In. unfold sockets_in. rewrite in_map_iff. split.
  - intros [[i r] [E Hin]]. apply filter_In in Hin as [Hin Hr]. cbn in *.
    apply String.eqb_eq in Hr. now subst.
  - intros Hin. exists (id, room). split; auto.
    apply filter_In. split; auto. cbn. apply String.eqb_refl.
Qed.

Section AdapterFacts.

Variables (id : socket_id) (room : string).

Lemma in_room_add_same (a : adapter) :
  in_room (adapter_add id room a) id room = true.
Proof.
  unfold adapter_add. destruct (in_room a id room) eqn:E; auto.
  apply in_room_In, in_or_app. right. now left.
Qed.

Lemma in_room_add_mono (id' : socket_id) (room' : string) (a : adapter) :
  in_room a id' room' = true -> in_room (adapter_add id room a) id' room' = true.
Proof.
  unfold adapter_add. destruct (in_room a id room); auto.
  rewrite !in_room_In. intros H. apply in_or_app. now left.
Qed.

Lemma in_room_del_other (id' : socket_id) (room' : string) (a : adapter) :
  id' <> id -> in_room a id' room' = true ->
  in_room (adapter_del id room a) id' room' = true.
Proof.
  intros Hne. rewrite !in_room_In. intros Hin.
  apply filter_In. split; auto. unfold is_member. cbn.
  destruct (String.eqb_spec id' id); [contradiction|reflexivity].
Qed.

Lemma in_room_delAll_other (id' : socket_id) (room' : string) (a : adapter) :
  id' <> id -> in_room a id' room' = true ->
  in_room (adapter_delAll id a) id' room' = true.
Proof.
  intros Hne. rewrite !in_room_In. intros Hin.
  apply filter_In. split; auto. cbn.
  destruct (String.eqb_spec id' id); [contradiction|reflexivity].
Qed.

Lemma adapter_delAll_twice (a : adapter) :
  adapter_delAll id (adapter_delAll id a) = adapter_delAll id a.
Proof.
  apply filter_idem.
Qed.

End AdapterFacts.

(** ** The registry outside the handler's own entry *)

(** From here on the operations of the registry and of the adapter are used
    through their lemmas. *)
#[local] Arguments reg_get : simpl never.
#[local] Arguments reg_set : simpl never.
#[local] Arguments reg_delete : simpl never.
#[local] Arguments usersInRoom : simpl never.
#[local] Arguments find_socket : simpl never.
#[local] Arguments truthy : simpl never.
#[local] Arguments guarded_to_user : simpl never.
#[local] Arguments in_room : simpl never.
#[local] Arguments is_open : simpl never.
#[local] Arguments sockets_in : simpl never.
#[local] Arguments adapter_add : simpl never.
#[local] Arguments adapter_del : simpl never.
#[local] Arguments adapter_delAll : simpl never.
#[local] Arguments system_notice : simpl never.

(** Frame of the registry: the handler of socket [id] leaves the entry of
    every other socket as it was. *)
Lemma step_frame (s : state) (id id' : socket_id) (e : event) (w : world) :
  id' <> id ->
  reg_get id' (onlineUsers (final (handle id e w s))) = reg_get id' (onlineUsers s).
Proof.
  intros Hne. destruct e; handler_steps; case_split;
    auto using reg_get_set_other, reg_get_delete_other.
Qed.

(** What a handler does to its own entry, and to the stores. *)
Lemma own_step_users (s : state) (id : socket_id) (u : User.t) (e : event)
      (w : world) :
  reg_get id (onlineUsers s) = Some u ->
  match e with
  | Ev_registerUser _ | Ev_disconnect => True
  | _ =>
      onlineUsers (final (handle id e w s)) = onlineUsers s
      \/ exists r,
          onlineUsers (final (handle id e w s))
          = reg_set id (User.mk (User.username u) r) (onlineUsers s)
  end.
Proof.
  intros Hget.
  destruct e; auto; handler_steps; rewrite Hget; cbn; case_split; eauto.
Qed.

Lemma step_stores_grow (s : state) (i : input) :
  exists g p,
    groupMessages (step s i) = groupMessages s ++ g
    /\ privateMessages (step s i) = privateMessages s ++ p.
Proof.
  destruct i as [id e w]. unfold step. cbn [from ev env].
  destruct e; handler_steps; case_split;
    first [ exists [], []; split; now rewrite app_nil_r
          | eexists [_], []; split; [reflexivity | now rewrite app_nil_r]
          | eexists [], [_]; split; [now rewrite app_nil_r | reflexivity] ].
Qed.

(** ** Invariants along a run *)

Lemma step_keys_unique (s : state) (i : input) :
  keys_unique s -> keys_unique (step s i).
Proof.
  unfold keys_unique, step. destruct i as [id e w]. cbn [from ev env].
  intros Hnd. destruct e; handler_steps; case_split;
    auto using NoDup_reg_set, NoDup_reg_delete.
Qed.

Lemma set_room_joined (s : state) (id : socket_id) (name : string)
      (r : option string) (a : adapter) :
  occupants_joined s ->
  (forall id' room', id' <> id ->
     in_room (rooms s) id' room' = true -> in_room a id' room' = true) ->
  (forall room', r = Some room' -> in_room a id room' = true) ->
  occupants_joined
    {| onlineUsers := reg_set id (User.mk name r) (onlineUsers s);
       rooms := a;
       groupMessages := groupMessages s;
       privateMessages := privateMessages s |}.
Proof.
  intros Hj Hother Hsame id' u' room' Hget Hroom. cbn in *.
  destruct (String.eqb_spec id' id) as [->|Hne].
  - rewrite reg_get_set_same in Hget. inversion Hget; subst u'. cbn in Hroom.
    auto.
  - rewrite reg_get_set_other in Hget by assumption. eauto.
Qed.

Lemma delete_joined (s : state) (id : socket_id) :
  occupants_joined s ->
  occupants_joined
    {| onlineUsers := reg_delete id (onlineUsers s);
       rooms := adapter_delAll id (rooms s);
       groupMessages := groupMessages s;
       privateMessages := privateMessages s |}.
Proof.
  intros Hj id' u' room' Hget Hroom. cbn in *.
  destruct (String.eqb_spec id' id) as [->|Hne].
  - now rewrite reg_get_delete_same in Hget.
  - rewrite reg_get_delete_other in Hget by assumption.
    apply in_room_delAll_other; eauto.
Qed.

Lemma step_occupants_joined (s : state) (i : input) :
  occupants_joined s -> occupants_joined (step s i).
Proof.
  unfold step. destruct i as [id e w]. cbn [from ev env].
  intros Hj. destruct e; handler_steps; case_split; auto;
    unfold with_users, with_rooms; cbn;
    try (now apply delete_joined);
    apply set_room_joined; auto; try discriminate.
  - (* joinRoom, out of a room *)
    intros. now apply in_room_add_mono, in_room_del_other.
  - intros room' E. inversion E; subst. apply in_room_add_same.
  - (* joinRoom, from no room *)
    intros. now apply in_room_add_mono.
  - intros room' E. inversion E; subst. apply in_room_add_same.
  - (* leaveRoom *)
    intros. now apply in_room_del_other.
Qed.

Lemma process_consistent (ins : list input) (s : state) :
  consistent s -> consistent (process ins s).
Proof.
  revert s. induction ins as [|i ins IH]; cbn; auto.
  intros s [Hk Hj]. apply IH. split.
  - now apply step_keys_unique.
  - now apply step_occupants_joined.
Qed.

(** ** Invariants of the server *)

Lemma is_open_In (sv : server) (id : socket_id) :
  is_open sv id = true <-> In id (sockets sv).
Proof.
  unfold is_open. rewrite existsb_exists. split.
  - intros [x [Hin E]]. apply String.eqb_eq in E. now subst.
  - intros Hin. exists id. split; auto. apply String.eqb_refl.
Qed.

(** The lines after an [await] send and do not write. *)
Lemma resume_final (sv : server) (t : task) : final (resume sv t) = st sv.
Proof.
  unfold resume. destruct (object_of (st sv) t); auto.
  destruct (saved t); unfold groupMessage_resumed, privateMessage_resumed,
    socket_emit; handler_steps; case_split; reflexivity.
Qed.

(** A save in the trace of a handler: the document is stored, under the
    name of the session, and the registry is as it was. *)
Lemma awaiting_handle (s : state) (id : socket_id) (e : event) (w : world)
      (a : awaited) :
  In a (awaiting (trace (handle id e w s))) ->
  is_stored (final (handle id e w s)) a
  /\ replaces_object e = false
  /\ onlineUsers (final (handle id e w s)) = onlineUsers s
  /\ exists u, reg_get id (onlineUsers s) = Some u
               /\ User.username u = sender_of a.
Proof.
  destruct e; handler_steps; case_split; cbn; try contradiction;
    intros [<-|[]]; cbn; repeat split; eauto using in_or_app, in_eq.
Qed.

Lemma stored_step (s : state) (i : input) (a : awaited) :
  is_stored s a -> is_stored (step s i) a.
Proof.
  destruct (step_stores_grow s i) as [g [p [Hg Hp]]].
  destruct a; cbn; rewrite ?Hg, ?Hp; intros H; apply in_or_app; now left.
Qed.

Lemma object_step (s : state) (i : input) (t : task) (user : User.t) :
  object_of s t = Some user ->
  replaces_object (ev i) = false \/ owner t <> from i ->
  exists user', object_of (step s i) t = Some user'
                /\ User.username user' = User.username user.
Proof.
  destruct i as [id e w]. unfold object_of, step. cbn [from ev env].
  destruct (held t) as [h|]; [eauto|].
  intros Hget Hcase.
  destruct (String.eqb_spec (owner t) id) as [E|Hne].
  - destruct Hcase as [Hrep|Hne]; [|contradiction]. rewrite E in *.
    pose proof (own_step_users s id user e w Hget) as H.
    destruct e; cbn in Hrep; try discriminate;
      destruct H as [-> | [r ->]]; eauto;
        rewrite reg_get_set_same; eauto.
  - rewrite step_frame; eauto.
Qed.

Lemma sound_connect (id : socket_id) (sv : server) :
  sound sv -> sound (connect id sv).
Proof.
  intros [[Hk Hj] [Hopen Htasks]]. unfold connect.
  destruct (is_open sv id || was_open sv id);
    [unfold sound, consistent; auto|].
  unfold sound, consistent. split; [split|split]; cbn.
  - exact Hk.
  - intros id' u r Hget Hroom. apply in_room_add_mono. eauto.
  - intros id' u Hget. apply is_open_In. cbn. apply in_or_app. left.
    apply is_open_In. eauto.
  - exact Htasks.
Qed.

Lemma sound_receive (sv : server) (i : input) :
  sound sv -> sound (receive sv i).
Proof.
  intros Hsound. unfold receive.
  destruct (is_open sv (from i)) eqn:Eopen; [|exact Hsound].
  destruct Hsound as [[Hk Hj] [Hopen Htasks]].
  destruct i as [id e w]. cbn [from ev env] in *.
  change (final (handle id e w (st sv))) with (step (st sv) (mkInput id e w)).
  unfold sound, consistent. split; [split|split]; cbn [st sockets pending].
  - now apply step_keys_unique.
  - now apply step_occupants_joined.
  - intros id' u Hget. apply is_open_In. cbn [sockets].
    destruct (String.eqb_spec id' id) as [->|Hne].
    + destruct e; cbn; try (now apply is_open_In).
      exfalso. revert Hget. unfold step. handler_steps. case_split;
        now rewrite reg_get_delete_same.
    + unfold step in Hget. cbn [from ev env] in Hget.
      rewrite step_frame in Hget by assumption.
      apply Hopen, is_open_In in Hget.
      destruct (closes e); auto.
      apply filter_In. split; auto.
      destruct (String.eqb_spec id' id); [contradiction|reflexivity].
  - intros t Hin. apply in_app_or in Hin as [Hin|Hin].
    + assert (Hold : exists t0,
                 In t0 (pending sv) /\ saved t = saved t0 /\ owner t = owner t0
                 /\ ((replaces_object e = true /\ owner t0 = id
                      /\ held t = object_of (st sv) t0)
                     \/ ((replaces_object e = false \/ owner t0 <> id) /\ t = t0))).
      { destruct (replaces_object e) eqn:Erep.
        - apply in_map_iff in Hin as [t0 [Et Hin]]. exists t0.
          unfold freeze in Et.
          destruct (String.eqb_spec (owner t0) id) as [E|Hne]; subst t; cbn.
          + repeat split; auto.
          + repeat split; auto.
        - exists t. repeat split; auto. }
      destruct Hold as [t0 [Hin0 [Esaved [Eowner Hcase]]]].
      destruct (Htasks t0 Hin0) as [Hst [user [Hobj Hname]]].
      split.
      * rewrite Esaved. now apply stored_step.
      * rewrite Esaved. destruct Hcase as [[_ [_ Eheld]]|[Hkeep ->]].
        -- exists user. split; auto. unfold object_of. now rewrite Eheld, Hobj.
        -- destruct (object_step (st sv) (mkInput id e w) t0 user Hobj Hkeep)
             as [user' [Hobj' Hname']].
           exists user'. split; [exact Hobj'|congruence].
    + apply in_map_iff in Hin as [a [<- Hin]].
      apply awaiting_handle in Hin as [Hst [_ [Hreg [u [Hget Hname]]]]].
      split; cbn; [exact Hst|].
      exists u. split; auto. unfold object_of, step. cbn. now rewrite Hreg.
Qed.

Lemma sound_resolve (n : nat) (sv : server) :
  sound sv -> sound (resolve n sv).
Proof.
  intros Hsound. unfold resolve.
  destruct (nth_error (pending sv) n) as [t|] eqn:Et; [|exact Hsound].
  destruct Hsound as [Hc [Hopen Htasks]].
  unfold sound, task_sound. cbn [st sockets pending].
  rewrite resume_final. split; [exact Hc|]. split; [exact Hopen|].
  intros t' Hin. apply Htasks.
  apply in_app_or in Hin as [Hin|Hin].
  - rewrite <- (firstn_skipn n (pending sv)). apply in_or_app. now left.
  - rewrite <- (firstn_skipn (S n) (pending sv)). apply in_or_app. now right.
Qed.

Lemma serve_sound (hs : list happening) (sv : server) :
  sound sv -> sound (serve hs sv).
Proof.
  revert sv. induction hs as [|h hs IH]; cbn; auto.
  intros sv Hsound. apply IH.
  destruct h; cbn; auto using sound_connect, sound_receive, sound_resolve.
Qed.

Lemma served_sound (sv : server) : served sv -> sound sv.
Proof.
  intros [hs <-]. apply serve_sound.
  unfold sound, consistent. split; [split|split].
  - constructor.
  - intros id u r H. discriminate.
  - intros id u H. discriminate.
  - intros t [].
Qed.

Lemma reachable_consistent (s : state) : reachable s -> consistent s.
Proof.
  intros [sv [Hserved <-]]. now apply served_sound.
Qed.

Lemma served_reachable (hs : list happening) : reachable (st (serve hs boot)).
Proof.
  exists (serve hs boot). split; [|reflexivity]. now exists hs.
Qed.

(** ** The frame of a handler *)

(** C10: a handler run for socket [id] changes at most the registry entry
    of [id]: the entry of every other socket, display name and current room,
    is the same before and after, whatever the event. *)
Theorem handler_frame (s : state) (id id' : socket_id) (e : event) (w : world) :
  id' <> id ->
  reg_get id' (onlineUsers (final (handle id e w s))) = reg_get id' (onlineUsers s).
Proof.
  apply step_frame.
Qed.

Lemma handler_frame_witness :
  reg_get "s2"
    (onlineUsers (final (handle "s1" (Ev_joinRoom "devops") w0
                           (process two_in_sports init))))
  = Some (User.mk "bob" (Some "sports")).
Proof.
  rewrite (handler_frame (process two_in_sports init) "s1" "s2"
             (Ev_joinRoom "devops") w0).
  - reflexivity.
  - intros H. discriminate H.
Defined.

(** ** The private history *)

(** C9: the private history of a pair of users does not depend on the order
    in which the two users are given. *)
Theorem private_history_symmetric (coll : list PrivateMessage.t) (a b : string) :
  private_history coll a b = private_history coll b a.
Proof.
  unfold private_history. do 2 f_equal.
  apply filter_ext. intros m. unfold between. apply orb_comm.
Qed.

(** ** Disconnect *)

Lemma disconnect_final (s : state) (id : socket_id) (w : world) :
  final (disconnect id w s) = with_users (reg_delete id) s.
Proof.
  handler_steps. case_split; reflexivity.
Qed.

Lemma disconnect_trace (s : state) (id : socket_id) (w : world) :
  trace (disconnect id w s) =
  match reg_get id (onlineUsers s) with
  | Some u =>
      match truthy (User.room u) with
      | Some room =>
          [ Emit (io_to room) (system_notice u " has disconnected" w)
              (sockets_in (rooms s) room);
            Emit (io_to room) (Pkt.updateUsers (usersInRoom (onlineUsers s) room))
              (sockets_in (rooms s) room) ]
      | None => []
      end
  | None => []
  end.
Proof.
  handler_steps. case_split; reflexivity.
Qed.

Lemma truthy_Some (v : option string) (r : string) :
  truthy v = Some r -> v = Some r /\ r <> "".
Proof.
  unfold truthy. destruct v as [t|]; [|discriminate].
  destruct (String.eqb_spec t ""); [discriminate|].
  intros E. inversion E; subst. auto.
Qed.

(** C6: [disconnect] is idempotent.  The first call removes the entry of the
    socket whatever the state; a second call, or a call for a socket that has
    no entry, changes nothing and sends nothing; over the two calls there is
    one departure notice and one list of occupants when the session existed
    and had a room, and none otherwise. *)
Theorem disconnect_idempotent (s : state) (id : socket_id) (w w' : world) :
  let first := disconnect id w s in
  let second := disconnect id w' (final first) in
  let sent := trace first ++ trace second in
  reg_get id (onlineUsers (final first)) = None
  /\ final second = final first
  /\ trace second = []
  /\ outcome first = Normal tt /\ outcome second = Normal tt
  /\ count is_roomMessage sent = count is_updateUsers sent
  /\ count is_roomMessage sent <= 1
  /\ length sent = 2 * count is_roomMessage sent
  /\ (count is_roomMessage sent = 1 <->
      exists u room, reg_get id (onlineUsers s) = Some u
                     /\ truthy (User.room u) = Some room)
  /\ (count is_roomMessage sent = 1 ->
      exists u room, reg_get id (onlineUsers s) = Some u
                     /\ User.room u = Some room
                     /\ sent =
                        [ Emit (io_to room) (system_notice u " has disconnected" w)
                            (sockets_in (rooms s) room);
                          Emit (io_to room)
                            (Pkt.updateUsers (usersInRoom (onlineUsers s) room))
                            (sockets_in (rooms s) room) ])
  /\ (reg_get id (onlineUsers s) = None ->
      final first = s /\ trace first = []).
Proof.
  cbn zeta.
  assert (Hgone : reg_get id (onlineUsers (final (disconnect id w s))) = None).
  { rewrite disconnect_final. cbn. apply reg_get_delete_same. }
  assert (Hsecond : trace (disconnect id w' (final (disconnect id w s))) = []).
  { rewrite disconnect_trace, Hgone. reflexivity. }
  assert (Habsent : reg_get id (onlineUsers s) = None ->
                    final (disconnect id w s) = s /\ trace (disconnect id w s) = []).
  { intros Hu. rewrite disconnect_final, disconnect_trace, Hu. split; auto.
    destruct s as [reg a g p]. unfold with_users; cbn in *.
    f_equal. now apply reg_delete_absent. }
  rewrite Hsecond, app_nil_r.
  split; [exact Hgone|].
  split.
  { rewrite !disconnect_final. unfold with_users; cbn. f_equal.
    apply filter_idem. }
  split; [reflexivity|].
  split; [handler_steps; case_split; reflexivity|].
  split; [handler_steps; case_split; reflexivity|].
  rewrite disconnect_trace.
  destruct (reg_get id (onlineUsers s)) as [u|] eqn:Hu.
  - destruct (truthy (User.room u)) as [room|] eqn:Hr;
      unfold count, system_notice; cbn.
    + split; [reflexivity|]. split; [lia|]. split; [reflexivity|].
      split; [split; eauto|]. split; [|discriminate].
      intros _. exists u, room. apply truthy_Some in Hr as [Hr _]. auto.
    + split; [reflexivity|]. split; [lia|]. split; [reflexivity|].
      split; [|split; discriminate].
      split; [discriminate|].
      intros [u' [room [E Hr']]]. inversion E; subst u'. congruence.
  - unfold count; cbn.
    split; [reflexivity|]. split; [lia|]. split; [reflexivity|].
    split; [|split; [discriminate|]].
    2: { intros _. split; [now apply Habsent | reflexivity]. }
    split; [discriminate|].
    intros [u' [room [E _]]]. discriminate.
Qed.

Lemma disconnect_idempotent_witness :
  count is_roomMessage
    (trace (disconnect "s2" w0 (process two_in_sports init))
     ++ trace (disconnect "s2" w0
                 (final (disconnect "s2" w0 (process two_in_sports init)))))
  = 1.
Proof.
  pose proof (disconnect_idempotent (process two_in_sports init) "s2" w0 w0) as H.
  cbn zeta in H.
  destruct H as [_ [_ [_ [_ [_ [_ [_ [_ [H _]]]]]]]]].
  apply H. exists (User.mk "bob" (Some "sports")), "sports".
  split; reflexivity.
Defined.

(** ** Resolving the recipient: the first entry under that name *)

Lemma find_keys (reg l : registry) (to_user : option string) :
  NoDup (map fst reg) -> incl l reg ->
  find (fun id => match reg_get id reg with
                  | Some u => strict_eq (User.username u) to_user
                  | None => false
                  end) (map fst l)
  = option_map fst (find (fun kv => strict_eq (User.username (snd kv)) to_user) l).
Proof.
  intros Hnd. induction l as [|[k v] l IH]; cbn; auto.
  intros Hincl.
  assert (Hk : reg_get k reg = Some v).
  { apply In_reg_get; auto. apply Hincl. now left. }
  rewrite Hk.
  destruct (strict_eq (User.username v) to_user); auto.
  apply IH. intros x Hx. apply Hincl. now right.
Qed.

Lemma find_first {A} (f : A -> bool) (l : list A) :
  match find f l with
  | Some x => exists before after,
      l = before ++ x :: after /\ f x = true
      /\ forall y, In y before -> f y = false
  | None => forall y, In y l -> f y = false
  end.
Proof.
  induction l as [|a l IH]; cbn.
  - tauto.
  - destruct (f a) eqn:Ea.
    + exists [], l. cbn. tauto.
    + destruct (find f l) as [x|].
      * destruct IH as [before [after [E [Hx Hb]]]].
        exists (a :: before), after. cbn. subst l. repeat split; auto.
        intros y [<-|Hy]; auto.
      * intros y [<-|Hy]; auto.
Qed.

Lemma first_unique {A} (f : A -> bool) (b1 b2 a1 a2 : list A) (x1 x2 : A) :
  b1 ++ x1 :: a1 = b2 ++ x2 :: a2 ->
  f x1 = true -> f x2 = true ->
  (forall y, In y b1 -> f y = false) ->
  (forall y, In y b2 -> f y = false) ->
  x1 = x2.
Proof.
  revert b2. induction b1 as [|y b1 IH]; intros [|z b2] E H1 H2 Hb1 Hb2;
    cbn in E; injection E as Ehd Etl.
  - exact Ehd.
  - assert (Hz : f z = false) by (apply Hb2; now left). congruence.
  - assert (Hy : f y = false) by (apply Hb1; now left). congruence.
  - apply (IH b2); auto.
    + intros; apply Hb1; now right.
    + intros; apply Hb2; now right.
Qed.

(** [find_socket] gives the first match in registry order, and nothing
    exactly when no session has the name. *)
Lemma find_socket_first (reg : registry) (to_user : option string) (id : socket_id) :
  NoDup (map fst reg) ->
  first_match reg to_user id -> find_socket reg to_user = Some id.
Proof.
  intros Hnd [before [u [after [E [Hu Hb]]]]].
  unfold find_socket. rewrite (find_keys reg reg) by auto using incl_refl.
  pose proof (find_first (fun kv => strict_eq (User.username (snd kv)) to_user) reg) as H.
  destruct (find _ reg) as [[k v]|]; cbn.
  - destruct H as [b' [a' [E' [Hv Hb']]]]. cbn in Hv.
    assert (Heq : (id, u) = (k, v)).
    { apply (first_unique (fun kv => strict_eq (User.username (snd kv)) to_user)
               before b' after a'); auto; try congruence.
      intros [i x] Hin. cbn. eauto. }
    congruence.
  - assert (Hf : strict_eq (User.username u) to_user = false).
    { apply (H (id, u)). rewrite E. apply in_or_app. right. now left. }
    congruence.
Qed.

Lemma find_socket_none (reg : registry) (to_user : option string) :
  NoDup (map fst reg) ->
  no_match reg to_user -> find_socket reg to_user = None.
Proof.
  intros Hnd Hno.
  unfold find_socket. rewrite (find_keys reg reg) by auto using incl_refl.
  pose proof (find_first (fun kv => strict_eq (User.username (snd kv)) to_user) reg) as H.
  destruct (find _ reg) as [[k v]|]; cbn; auto.
  destruct H as [b' [a' [E' [Hv _]]]]. cbn in Hv.
  rewrite (Hno k v) in Hv; [discriminate|].
  apply In_reg_get; auto. rewrite E'. apply in_or_app. right. now left.
Qed.


(** ** Group messages *)

Lemma occupant_receives (s : state) (id : socket_id) (u : User.t) (room : string) :
  occupants_joined s ->
  reg_get id (onlineUsers s) = Some u -> User.room u = Some room ->
  In id (sockets_in (rooms s) room).
Proof.
  intros Hj Hget Hroom. apply sockets_in_In. eauto.
Qed.

(** An event of an open socket whose handler neither replaces the object
    nor saves leaves the pending saves as they are; one that saves adds
    its save, last. *)
Lemma receive_pending (sv : server) (id : socket_id) (e : event) (w : world) :
  is_open sv id = true ->
  replaces_object e = false ->
  pending (receive sv (mkInput id e w))
  = pending sv
    ++ map (mkTask id None) (awaiting (trace (handle id e w (st sv)))).
Proof.
  intros Hopen Hrep. unfold receive. cbn [from ev env].
  now rewrite Hopen, Hrep.
Qed.

Lemma receive_st (sv : server) (i : input) :
  is_open sv (from i) = true ->
  st (receive sv i) = step (st sv) i.
Proof.
  intros Hopen. unfold receive. now rewrite Hopen.
Qed.





(** The same message sent, and the sender changing room before the save
    resolves: the document is stored under one room and broadcast to the
    other. *)
Lemma groupMessage_after_room_change :
  let sv := serve (two_in_sports_live
                   ++ [ Sends (mkInput "s1"
                                 (Ev_groupMessage (Some (Data.mk None (Some "hi"))))
                                 w0);
                        Sends (mkInput "s1" (Ev_joinRoom "devops") w0) ])
                  boot in
  groupMessages (st sv) = [GroupMessage.mk "alice" "sports" (Some "hi") 1001]
  /\ exists t, nth_error (pending sv) 0 = Some t
               /\ trace (resume sv t)
                  = [ Emit (io_to "devops")
                        (Pkt.roomMessage "alice" (Some "hi") 1001) ["s1"] ].
Proof.
  cbn zeta. split; [reflexivity|]. eexists. split; reflexivity.
Qed.

(** ** Private messages *)





(** ** Typing notices *)

Lemma socket_to_members (a : adapter) (id id' : socket_id) (room : string) :
  In id' (receivers a (socket_to id room)) <->
  in_room a id' room = true /\ in_room a id' id = false.
Proof.
  cbn. rewrite filter_In, sockets_in_In, negb_true_iff. tauto.
Qed.

Lemma room_notice_routed (s : state) (id : socket_id) (room : string)
      (pkt : Pkt.t) :
  occupants_joined s ->
  exists to,
    [Emit (socket_to id room) pkt (receivers (rooms s) (socket_to id room))]
    = [Emit (socket_to id room) pkt to]
    /\ (forall id',
          In id' to <->
          in_room (rooms s) id' room = true /\ in_room (rooms s) id' id = false)
    /\ (in_room (rooms s) id id = true -> ~ In id to)
    /\ (forall id' u',
          reg_get id' (onlineUsers s) = Some u' ->
          User.room u' = Some room ->
          in_room (rooms s) id' id = false ->
          In id' to).
Proof.
  intros Hj. exists (receivers (rooms s) (socket_to id room)).
  split; [reflexivity|]. split; [|split].
  - intros id'. apply socket_to_members.
  - intros Hown Hin. apply socket_to_members in Hin as [_ Hin]. congruence.
  - intros id' u' Hget Hroom Hout. apply socket_to_members. eauto.
Qed.

Lemma typing_routed (s : state) (id : socket_id) (u : User.t) (d : Data.t) :
  consistent s ->
  reg_get id (onlineUsers s) = Some u ->
  notice_routed s id u (Data.to_user d) (Pkt.typing (User.username u))
    (typing id (Some d) s).
Proof.
  intros [Hnd Hj] Hget. unfold notice_routed, keys_unique in *.
  handler_steps. rewrite Hget. cbn.
  destruct (truthy (Data.to_user d)) as [t|] eqn:Ht; cbn.
  - destruct (find_socket (onlineUsers s) (Data.to_user d)) as [rid|] eqn:Hf;
      cbn; repeat split; auto.
    + intros rid' H. apply find_socket_first in H; auto. congruence.
    + intros H. apply find_socket_none in H; auto. congruence.
    + intros rid' H. apply find_socket_first in H; auto. congruence.
  - destruct (truthy (User.room u)) as [room|] eqn:Hr; cbn; repeat split; auto.
    now apply room_notice_routed.
Qed.

Lemma stopTyping_routed (s : state) (id : socket_id) (u : User.t)
      (data : option Data.t) :
  consistent s ->
  reg_get id (onlineUsers s) = Some u ->
  notice_routed s id u (guarded_to_user data) (Pkt.stopTyping (User.username u))
    (stopTyping id data s).
Proof.
  intros [Hnd Hj] Hget. unfold notice_routed, keys_unique in *.
  handler_steps. rewrite Hget. cbn.
  destruct (truthy (guarded_to_user data)) as [t|] eqn:Ht; cbn.
  - destruct (find_socket (onlineUsers s) (guarded_to_user data)) as [rid|] eqn:Hf;
      cbn; repeat split; auto.
    + intros rid' H. apply find_socket_first in H; auto. congruence.
    + intros H. apply find_socket_none in H; auto. congruence.
    + intros rid' H. apply find_socket_first in H; auto. congruence.
  - destruct (truthy (User.room u)) as [room|] eqn:Hr; cbn; repeat split; auto.
    now apply room_notice_routed.
Qed.

(** C7, as the code has it: for a [stopTyping] event, and for a [typing]
    event that carries a payload, of a registered session.  Without a name
    (or with the empty one) and in a room whose name is not empty, the
    notice goes to the members of the room that are not in the room named
    by the sender's id: to every session recorded in the room that is
    outside of that room, and not to the sender as long as the sender is in
    the room of its own id.  With a name, the notice goes to the room named
    by the id of the socket the name resolves to, the first session under
    that name, which may be the sender's own, and to no other room; when
    the name does not resolve, nothing is sent. *)
Theorem typing_notice_targets
        (s : state) (id : socket_id) (u : User.t) (d : Data.t)
        (data : option Data.t) :
  reachable s ->
  reg_get id (onlineUsers s) = Some u ->
  notice_routed s id u (Data.to_user d) (Pkt.typing (User.username u))
    (typing id (Some d) s)
  /\ notice_routed s id u (guarded_to_user data)
       (Pkt.stopTyping (User.username u)) (stopTyping id data s).
Proof.
  intros Hreach Hget. apply reachable_consistent in Hreach.
  split; [now apply typing_routed | now apply stopTyping_routed].
Qed.

Lemma typing_notice_targets_witness :
  notice_routed (st (serve two_in_sports_live boot)) "s1"
    (User.mk "alice" (Some "sports")) None (Pkt.typing "alice")
    (typing "s1" (Some (Data.mk None None)) (st (serve two_in_sports_live boot)))
  /\ notice_routed (st (serve two_in_sports_live boot)) "s1"
       (User.mk "alice" (Some "sports")) None (Pkt.stopTyping "alice")
       (stopTyping "s1" None (st (serve two_in_sports_live boot))).
Proof.
  apply (typing_notice_targets
           (st (serve two_in_sports_live boot)) "s1"
           (User.mk "alice" (Some "sports")) (Data.mk None None) None).
  - exists (serve two_in_sports_live boot). split; [|reflexivity].
    exists two_in_sports_live. reflexivity.
  - reflexivity.
Defined.

(** C7 as stated fails: a notice addressed by name reaches the sender when
    the name resolves to the sender's own session. *)
Lemma direct_typing_reaches_sender :
  ~ (forall (s : state) (id : socket_id) (u : User.t) (d : Data.t),
        reachable s ->
        reg_get id (onlineUsers s) = Some u ->
        truthy (Data.to_user d) <> None ->
        forall t p to,
          In (Emit t p to) (trace (typing id (Some d) s)) -> ~ In id to).
Proof.
  intros H.
  assert (Hreach : reachable (st (serve alice_alone_live boot))).
  { exists (serve alice_alone_live boot). split; [|reflexivity].
    exists alice_alone_live. reflexivity. }
  apply (H (st (serve alice_alone_live boot)) "s1" (User.mk "alice" None)
           (Data.mk (Some "alice") None)
           Hreach eq_refl
           ltac:(discriminate)
           (io_to "s1") (Pkt.typing "alice") ["s1"]).
  - vm_compute. now left.
  - now left.
Qed.

(** ** Joining a room *)

(** The list sent to the room that is left is computed before [user.room]
    is changed: it still holds the name of the session that leaves. *)
Lemma joinRoom_leave_list (s : state) (id : socket_id) (u : User.t)
      (old room : string) (w : world) :
  reg_get id (onlineUsers s) = Some u ->
  truthy (User.room u) = Some old ->
  exists notice to rest,
    trace (joinRoom id room w s)
    = Emit (io_to old) notice to
        :: Emit (io_to old) (Pkt.updateUsers (usersInRoom (onlineUsers s) old)) to
        :: rest
    /\ In (User.username u) (usersInRoom (onlineUsers s) old).
Proof.
  intros Hget Hold.
  unfold joinRoom, lookup, read, bind at 1. cbn. rewrite Hget, Hold.
  handler_steps. do 3 eexists. split; [reflexivity|].
  apply usersInRoom_In. exists id, u.
  apply truthy_Some in Hold as [Hold _].
  auto using reg_get_In.
Qed.

(** C1 on the code: alice (s1) and bob (s2) are in "sports" and alice joins
    "devops".  The registry moves alice from one room to the other, but the
    list of occupants sent to "sports" still names alice; [leaveRoom], from
    the same state, sends the list without her. *)
Theorem joinRoom_sends_stale_list :
  let s := process two_in_sports init in
  trace (joinRoom "s1" "devops" w0 s)
  = [ Emit (io_to "sports")
        (Pkt.roomMessage "System" (Some "alice has left the room") 1000) ["s2"];
      Emit (io_to "sports") (Pkt.updateUsers ["alice"; "bob"]) ["s2"];
      Emit (io_to "devops")
        (Pkt.roomMessage "System" (Some "alice has joined the room") 1000) ["s1"];
      Emit (io_to "devops") (Pkt.updateUsers ["alice"]) ["s1"] ]
  /\ usersInRoom (onlineUsers (final (joinRoom "s1" "devops" w0 s))) "sports"
     = ["bob"]
  /\ usersInRoom (onlineUsers (final (joinRoom "s1" "devops" w0 s))) "devops"
     = ["alice"]
  /\ trace (leaveRoom "s1" w0 s)
     = [ Emit (io_to "sports")
           (Pkt.roomMessage "System" (Some "alice has left the room") 1000) ["s2"];
         Emit (io_to "sports") (Pkt.updateUsers ["bob"]) ["s2"] ].
Proof.
  cbn. repeat split; reflexivity.
Qed.

(** ** Events that are ignored, and one that throws *)

(** An event of a socket that has no entry does nothing, for every handler
    but [registerUser]; so do [leaveRoom] and [groupMessage] of a session
    that has no room. *)
Lemma unknown_session_ignored (s : state) (id : socket_id) (e : event) (w : world) :
  reg_get id (onlineUsers s) = None ->
  match e with
  | Ev_registerUser _ => True
  | Ev_disconnect =>
      disconnect id w s = mkRun (Normal tt) s []
  | _ => handle id e w s = mkRun (Normal tt) s []
  end.
Proof.
  intros Hget.
  destruct e; auto; handler_steps; rewrite Hget; cbn; auto.
  f_equal. destruct s as [reg a g p]. unfold with_users; cbn in *.
  f_equal. now apply reg_delete_absent.
Qed.

Lemma no_room_ignored (s : state) (id : socket_id) (u : User.t)
      (data : option Data.t) (w : world) :
  reg_get id (onlineUsers s) = Some u ->
  truthy (User.room u) = None ->
  leaveRoom id w s = mkRun (Normal tt) s []
  /\ groupMessage id data w s = mkRun (Normal tt) s [].
Proof.
  intros Hget Hroom. split; handler_steps; rewrite Hget, Hroom; reflexivity.
Qed.

(** C4 on the code: alice is registered and sends [typing] with no payload.
    The handler reads [data.to_user] of [undefined] and throws; [stopTyping],
    which tests [data] first, does not. *)
Theorem typing_without_payload_throws :
  let s := process alice_alone init in
  reg_get "s1" (onlineUsers s) = Some (User.mk "alice" None)
  /\ outcome (typing "s1" None s) = Thrown TypeError
  /\ outcome (handle "s1" (Ev_typing None) w0 s) = Thrown TypeError
  /\ outcome (stopTyping "s1" None s) = Normal tt.
Proof.
  cbn. repeat split; reflexivity.
Qed.

(** ** Occupants of a room *)

(** C2, as the code has it: in every reachable state the list of occupants
    of a room holds exactly the display names of the sessions whose current
    room is that room.  So a session in the room is always listed; a listed
    name belongs to some session in the room, which is the session asked
    about when no other session carries its name; and a room no session
    refers to has the empty list. *)
Theorem occupants_by_room (s : state) (room : string) :
  reachable s ->
  (forall name,
      In name (usersInRoom (onlineUsers s) room) <->
      exists id u, reg_get id (onlineUsers s) = Some u
                   /\ User.username u = name
                   /\ User.room u = Some room)
  /\ (forall id u,
        reg_get id (onlineUsers s) = Some u ->
        User.room u = Some room ->
        In (User.username u) (usersInRoom (onlineUsers s) room))
  /\ (forall id u,
        reg_get id (onlineUsers s) = Some u ->
        (forall id' u',
            reg_get id' (onlineUsers s) = Some u' ->
            User.username u' = User.username u -> id' = id) ->
        (In (User.username u) (usersInRoom (onlineUsers s) room) <->
         User.room u = Some room))
  /\ ((forall id u, reg_get id (onlineUsers s) = Some u ->
                    User.room u <> Some room) ->
      usersInRoom (onlineUsers s) room = []).
Proof.
  intros Hreach. apply reachable_consistent in Hreach as [Hnd _].
  unfold keys_unique in Hnd.
  assert (Hlist : forall name,
             In name (usersInRoom (onlineUsers s) room) <->
             exists id u, reg_get id (onlineUsers s) = Some u
                          /\ User.username u = name
                          /\ User.room u = Some room).
  { intros name. rewrite usersInRoom_In. split.
    - intros [id [u [Hin H]]]. exists id, u. split; auto using In_reg_get.
    - intros [id [u [Hget H]]]. exists id, u. split; auto using reg_get_In. }
  split; [exact Hlist|]. split; [|split].
  - intros id u Hget Hroom. apply Hlist. eauto.
  - intros id u Hget Huniq. split.
    + intros Hin. apply Hlist in Hin as [id' [u' [Hget' [Hname Hroom]]]].
      assert (id' = id) by eauto. subst id'. congruence.
    + intros Hroom. apply Hlist. eauto.
  - intros Hnone.
    assert (Hno : forall name, ~ In name (usersInRoom (onlineUsers s) room)).
    { intros name Hin. apply Hlist in Hin as [id [u [Hget [_ Hroom]]]].
      eapply Hnone; eauto. }
    destruct (usersInRoom (onlineUsers s) room) as [|name l]; auto.
    exfalso. apply (Hno name). now left.
Qed.

Lemma occupants_by_room_witness :
  In "bob"
     (usersInRoom (onlineUsers (st (serve two_in_sports_live boot))) "sports")
  /\ usersInRoom (onlineUsers (st (serve two_in_sports_live boot))) "devops"
     = [].
Proof.
  pose proof (occupants_by_room (st (serve two_in_sports_live boot))) as H.
  split.
  - destruct (H "sports" (served_reachable two_in_sports_live)) as [Hl _].
    apply Hl. exists "s2", (User.mk "bob" (Some "sports")).
    repeat split.
  - destruct (H "devops" (served_reachable two_in_sports_live))
      as [_ [_ [_ He]]].
    apply He. intros id u.
    change (onlineUsers (st (serve two_in_sports_live boot)))
      with [ ("s1", User.mk "alice" (Some "sports"));
             ("s2", User.mk "bob" (Some "sports")) ].
    unfold reg_get.
    destruct (String.eqb "s1" id); [intros E; inversion E; discriminate|].
    destruct (String.eqb "s2" id); [intros E; inversion E; discriminate|].
    discriminate.
Defined.

(** C2 as stated fails: with two sessions under one display name, the name
    is listed in the room of the second while the first is elsewhere. *)
Lemma occupants_iff_fails :
  ~ (forall (s : state) (room : string) (id : socket_id) (u : User.t),
        reachable s ->
        reg_get id (onlineUsers s) = Some u ->
        (In (User.username u) (usersInRoom (onlineUsers s) room) <->
         User.room u = Some room)).
Proof.
  intros H.
  destruct (H (st (serve two_alices_live boot)) "devops" "s1"
              (User.mk "alice" (Some "sports"))
              (served_reachable two_alices_live) eq_refl) as [Hin _].
  cbn in Hin. discriminate Hin. now left.
Qed.

(** ** Display names *)

Lemma step_keeps_name (s : state) (i : input) (id : socket_id) (u : User.t) :
  reg_get id (onlineUsers s) = Some u ->
  registers id i = false -> disconnects id i = false ->
  exists u', reg_get id (onlineUsers (step s i)) = Some u'
             /\ User.username u' = User.username u.
Proof.
  destruct i as [id' e w]. unfold registers, disconnects, step. cbn [from ev env].
  intros Hget Hreg Hdis.
  destruct (String.eqb_spec id' id) as [->|Hne].
  - pose proof (own_step_users s id u e w Hget) as H.
    destruct e; cbn in Hreg, Hdis; try discriminate;
      destruct H as [-> | [r ->]]; eauto;
        rewrite reg_get_set_same; eauto.
  - exists u. split; auto. rewrite step_frame; auto.
Qed.

Lemma process_keeps_name (ins : list input) (s : state) (id : socket_id) (u : User.t) :
  reg_get id (onlineUsers s) = Some u ->
  forallb (fun i => negb (registers id i) && negb (disconnects id i)) ins = true ->
  exists u', reg_get id (onlineUsers (process ins s)) = Some u'
             /\ User.username u' = User.username u.
Proof.
  revert s u. induction ins as [|i ins IH]; cbn; intros s u Hget Hall.
  - eauto.
  - apply andb_true_iff in Hall as [Hi Hall].
    apply andb_true_iff in Hi as [Hreg Hdis].
    apply negb_true_iff in Hreg, Hdis.
    destruct (step_keeps_name s i id u Hget Hreg Hdis) as [u1 [Hget1 Hname1]].
    destruct (IH (step s i) u1 Hget1 Hall) as [u' [Hget' Hname']].
    exists u'. split; [exact Hget' | congruence].
Qed.

(** C8, as the code has it: [registerUser] writes the display name of the
    socket, also over an entry the socket already has; between two such
    events of the socket, and until it disconnects, no event of any socket
    changes the name that the registry holds for it, and the lists of
    occupants show it under that name. *)
Theorem displayName_stable
        (s : state) (id : socket_id) (u : User.t) (ins : list input) :
  reg_get id (onlineUsers s) = Some u ->
  forallb (fun i => negb (registers id i) && negb (disconnects id i)) ins = true ->
  (exists u',
      reg_get id (onlineUsers (process ins s)) = Some u'
      /\ User.username u' = User.username u
      /\ forall room, User.room u' = Some room ->
                      In (User.username u)
                         (usersInRoom (onlineUsers (process ins s)) room))
  /\ (forall name w,
         reg_get id (onlineUsers (step (process ins s)
                                       (mkInput id (Ev_registerUser name) w)))
         = Some (User.mk name None)).
Proof.
  intros Hget Hall. split.
  - destruct (process_keeps_name ins s id u Hget Hall) as [u' [Hget' Hname]].
    exists u'. repeat split; auto.
    intros room Hroom. apply usersInRoom_In. exists id, u'.
    auto using reg_get_In.
  - intros name w. unfold step. handler_steps. apply reg_get_set_same.
Qed.

Lemma displayName_stable_witness :
  exists u',
    reg_get "s1"
      (onlineUsers (process [ mkInput "s1" (Ev_joinRoom "devops") w0;
                              mkInput "s2" Ev_disconnect w0;
                              mkInput "s1" Ev_leaveRoom w0 ]
                            (process two_in_sports init))) = Some u'
    /\ User.username u' = "alice".
Proof.
  destruct (displayName_stable (process two_in_sports init) "s1"
              (User.mk "alice" (Some "sports"))
              [ mkInput "s1" (Ev_joinRoom "devops") w0;
                mkInput "s2" Ev_disconnect w0;
                mkInput "s1" Ev_leaveRoom w0 ]
              eq_refl eq_refl) as [[u' [Hget [Hname _]]] _].
  exists u'. split; assumption.
Defined.

(** C8 as stated fails: a second [registerUser] of the same socket replaces
    the display name. *)
Lemma registerUser_renames :
  ~ (forall (s : state) (id : socket_id) (u : User.t) (ins : list input),
        reachable s ->
        reg_get id (onlineUsers s) = Some u ->
        forallb (fun i => negb (disconnects id i)) ins = true ->
        forall u', reg_get id (onlineUsers (process ins s)) = Some u' ->
                   User.username u' = User.username u).
Proof.
  intros H.
  specialize (H (st (serve alice_alone_live boot)) "s1" (User.mk "alice" None)
                [mkInput "s1" (Ev_registerUser "bob") w0]
                (served_reachable alice_alone_live)
                eq_refl eq_refl (User.mk "bob" None) eq_refl).
  discriminate H.
Qed.

(** * Further properties of the handlers *)

(** ** The adapter outside the handler's own socket *)

Lemma existsb_filter_keep {A} (p q : A -> bool) (l : list A) :
  (forall x, p x = true -> q x = true) ->
  existsb p (filter q l) = existsb p l.
Proof.
  intros Hpq. induction l as [|x l IH]; cbn; auto.
  destruct (q x) eqn:Eq; cbn; rewrite IH; auto.
  destruct (p x) eqn:Ep; auto.
  rewrite (Hpq x Ep) in Eq. discriminate.
Qed.

Lemma is_member_other (id id' : socket_id) (room : string) (m : socket_id * string) :
  id' <> id -> is_member id' room m = true -> negb (String.eqb (fst m) id) = true.
Proof.
  unfold is_member. intros Hne H. apply andb_true_iff in H as [H _].
  apply String.eqb_eq in H. rewrite H.
  destruct (String.eqb_spec id' id); [contradiction|reflexivity].
Qed.

Lemma in_room_add_other (id id' : socket_id) (room room' : string) (a : adapter) :
  id' <> id -> in_room (adapter_add id room a) id' room' = in_room a id' room'.
Proof.
  intros Hne. unfold adapter_add. destruct (in_room a id room); auto.
  unfold in_room. rewrite existsb_app. cbn. unfold is_member at 2. cbn.
  destruct (String.eqb_spec id id'); [congruence|].
  cbn. now rewrite orb_false_r.
Qed.

Lemma in_room_del_frame (id id' : socket_id) (room room' : string) (a : adapter) :
  id' <> id -> in_room (adapter_del id room a) id' room' = in_room a id' room'.
Proof.
  intros Hne. unfold in_room, adapter_del. apply existsb_filter_keep.
  intros m Hm. apply (is_member_other id id' room' m Hne) in Hm.
  unfold is_member. apply negb_true_iff in Hm. now rewrite Hm.
Qed.

Lemma in_room_delAll_frame (id id' : socket_id) (room' : string) (a : adapter) :
  id' <> id -> in_room (adapter_delAll id a) id' room' = in_room a id' room'.
Proof.
  intros Hne. unfold in_room, adapter_delAll. apply existsb_filter_keep.
  intros m Hm. now apply (is_member_other id id' room' m Hne).
Qed.

Lemma in_room_delAll_same (id : socket_id) (room : string) (a : adapter) :
  in_room (adapter_delAll id a) id room = false.
Proof.
  destruct (in_room (adapter_delAll id a) id room) eqn:E; auto.
  apply in_room_In, filter_In in E as [_ E]. cbn in E.
  now rewrite String.eqb_refl in E.
Qed.

Lemma in_room_del_gone (id : socket_id) (room : string) (a : adapter) :
  in_room (adapter_del id room a) id room = false.
Proof.
  destruct (in_room (adapter_del id room a) id room) eqn:E; auto.
  apply in_room_In, filter_In in E as [_ E].
  unfold is_member in E. cbn in E. now rewrite !String.eqb_refl in E.
Qed.

(** X1: the rooms of the adapter have a frame like the registry: an event
    of socket [id], whatever it is, leaves every other socket in exactly the
    rooms it was in. *)
Theorem adapter_frame (s : state) (id id' : socket_id) (e : event) (w : world)
        (room : string) :
  id' <> id ->
  in_room (rooms (final (handle id e w s))) id' room = in_room (rooms s) id' room.
Proof.
  intros Hne. destruct e; handler_steps; case_split;
    rewrite ?in_room_add_other, ?in_room_del_frame, ?in_room_delAll_frame;
    auto.
Qed.

Lemma adapter_frame_witness :
  in_room
    (rooms (final (handle "s1" Ev_disconnect w0 (process two_in_sports init))))
    "s2" "sports"
  = true.
Proof.
  rewrite (adapter_frame (process two_in_sports init) "s1" "s2" Ev_disconnect
             w0 "sports").
  - reflexivity.
  - intros H. discriminate H.
Defined.

(** ** Presence: registry and adapter together *)

(** X2: in every reachable state a session that the registry records in a
    room has joined that room in the adapter, so a broadcast to the room
    reaches it. *)
Theorem recorded_room_is_joined
        (s : state) (id : socket_id) (u : User.t) (room : string) :
  reachable s ->
  reg_get id (onlineUsers s) = Some u ->
  User.room u = Some room ->
  in_room (rooms s) id room = true
  /\ In id (receivers (rooms s) (io_to room)).
Proof.
  intros Hreach Hget Hroom.
  apply reachable_consistent in Hreach as [_ Hj].
  split; [eauto|]. cbn. eauto using occupant_receives.
Qed.

Lemma recorded_room_is_joined_witness :
  in_room (rooms (st (serve two_in_sports_live boot))) "s2" "sports" = true
  /\ In "s2" (receivers (rooms (st (serve two_in_sports_live boot)))
                (io_to "sports")).
Proof.
  apply (recorded_room_is_joined (st (serve two_in_sports_live boot)) "s2"
           (User.mk "bob" (Some "sports")) "sports").
  - apply served_reachable.
  - reflexivity.
  - reflexivity.
Defined.

(** X3: [leaveRoom] of a session that has a room takes the socket out of the
    room first and clears [user.room] second, and only then sends the notice
    and the list: the list is the one of the registry after the leave, and
    the socket that left receives neither. *)
Theorem leaveRoom_clears_then_lists
        (s : state) (id : socket_id) (u : User.t) (room : string) (w : world) :
  reg_get id (onlineUsers s) = Some u ->
  truthy (User.room u) = Some room ->
  let r := leaveRoom id w s in
  outcome r = Normal tt
  /\ reg_get id (onlineUsers (final r)) = Some (User.mk (User.username u) None)
  /\ in_room (rooms (final r)) id room = false
  /\ trace r =
     [ Emit (io_to room) (system_notice u " has left the room" w)
         (sockets_in (rooms (final r)) room);
       Emit (io_to room)
         (Pkt.updateUsers (usersInRoom (onlineUsers (final r)) room))
         (sockets_in (rooms (final r)) room) ]
  /\ ~ In id (sockets_in (rooms (final r)) room).
Proof.
  intros Hget Hroom. cbn zeta.
  handler_steps. rewrite Hget. cbn. rewrite Hroom. cbn.
  repeat split.
  - apply reg_get_set_same.
  - apply in_room_del_gone.
  - rewrite sockets_in_In, in_room_del_gone. discriminate.
Qed.

Lemma leaveRoom_clears_then_lists_witness :
  trace (leaveRoom "s1" w0 (process two_in_sports init))
  = [ Emit (io_to "sports")
        (Pkt.roomMessage "System" (Some "alice has left the room") 1000) ["s2"];
      Emit (io_to "sports") (Pkt.updateUsers ["bob"]) ["s2"] ].
Proof.
  pose proof (leaveRoom_clears_then_lists (process two_in_sports init) "s1"
                (User.mk "alice" (Some "sports")) "sports" w0
                eq_refl eq_refl) as H.
  cbn zeta in H. destruct H as [_ [_ [_ [H _]]]].
  rewrite H. reflexivity.
Defined.

(** X4: [joinRoom] of a registered session, for any room name at all (the
    name is not checked against [ROOMS]), records the session in the room
    and joins the socket to it before the notice and the list go out: the
    trace ends with the two of them, the list is the one of the registry
    after the join and names the session, and the socket that joined
    receives both.  From no room, they are the whole trace. *)
Theorem joinRoom_enters
        (s : state) (id : socket_id) (u : User.t) (room : string) (w : world) :
  reg_get id (onlineUsers s) = Some u ->
  let r := joinRoom id room w s in
  outcome r = Normal tt
  /\ reg_get id (onlineUsers (final r))
     = Some (User.mk (User.username u) (Some room))
  /\ in_room (rooms (final r)) id room = true
  /\ In (User.username u) (usersInRoom (onlineUsers (final r)) room)
  /\ In id (sockets_in (rooms (final r)) room)
  /\ exists before,
       trace r =
       before ++
       [ Emit (io_to room) (system_notice u " has joined the room" w)
           (sockets_in (rooms (final r)) room);
         Emit (io_to room)
           (Pkt.updateUsers (usersInRoom (onlineUsers (final r)) room))
           (sockets_in (rooms (final r)) room) ]
       /\ (truthy (User.room u) = None -> before = []).
Proof.
  intros Hget. cbn zeta.
  handler_steps. rewrite Hget. cbn.
  destruct (truthy (User.room u)) as [old|] eqn:Hold; cbn.
  - repeat split.
    + apply reg_get_set_same.
    + apply in_room_add_same.
    + apply usersInRoom_In. exists id, (User.mk (User.username u) (Some room)).
      repeat split. apply reg_get_In, reg_get_set_same.
    + apply sockets_in_In, in_room_add_same.
    + eexists [_; _]. split; [reflexivity|discriminate].
  - repeat split.
    + apply reg_get_set_same.
    + apply in_room_add_same.
    + apply usersInRoom_In. exists id, (User.mk (User.username u) (Some room)).
      repeat split. apply reg_get_In, reg_get_set_same.
    + apply sockets_in_In, in_room_add_same.
    + exists []. split; reflexivity.
Qed.

Lemma joinRoom_enters_witness :
  reg_get "s1"
    (onlineUsers (final (joinRoom "s1" "not in the catalog" w0
                           (process alice_alone init))))
  = Some (User.mk "alice" (Some "not in the catalog")).
Proof.
  pose proof (joinRoom_enters (process alice_alone init) "s1"
                (User.mk "alice" None) "not in the catalog" w0 eq_refl) as H.
  cbn zeta in H. destruct H as [_ [H _]]. exact H.
Defined.

(** X5: when a session that has a room disconnects, the list of occupants
    sent to the room is computed before the entry is deleted, so it still
    names the session that is gone; the closing socket has left its rooms
    already and receives nothing; afterwards the socket has no entry and is
    in no room. *)
Theorem disconnect_lists_the_leaver
        (s : state) (id : socket_id) (u : User.t) (room : string) (w : world) :
  reg_get id (onlineUsers s) = Some u ->
  truthy (User.room u) = Some room ->
  let r := handle id Ev_disconnect w s in
  exists to,
    trace r =
    [ Emit (io_to room) (system_notice u " has disconnected" w) to;
      Emit (io_to room) (Pkt.updateUsers (usersInRoom (onlineUsers s) room)) to ]
    /\ In (User.username u) (usersInRoom (onlineUsers s) room)
    /\ ~ In id to
    /\ reg_get id (onlineUsers (final r)) = None
    /\ forall room', in_room (rooms (final r)) id room' = false.
Proof.
  intros Hget Hroom. cbn zeta.
  handler_steps. rewrite Hget. cbn. rewrite Hroom. cbn.
  eexists. split; [reflexivity|]. repeat split.
  - apply usersInRoom_In. exists id, u.
    apply truthy_Some in Hroom as [Hroom _]. auto using reg_get_In.
  - rewrite sockets_in_In, in_room_delAll_same. discriminate.
  - apply reg_get_delete_same.
  - intros room'. apply in_room_delAll_same.
Qed.

Lemma disconnect_lists_the_leaver_witness :
  trace (handle "s2" Ev_disconnect w0 (process two_in_sports init))
  = [ Emit (io_to "sports")
        (Pkt.roomMessage "System" (Some "bob has disconnected") 1000) ["s1"];
      Emit (io_to "sports") (Pkt.updateUsers ["alice"; "bob"]) ["s1"] ].
Proof.
  destruct (disconnect_lists_the_leaver (process two_in_sports init) "s2"
              (User.mk "bob" (Some "sports")) "sports" w0 eq_refl eq_refl)
    as [to [H _]].
  cbn zeta in H. reflexivity.
Defined.

Lemma joinRoom_without_leave (s : state) (id : socket_id) (u : User.t)
      (room room2 : string) (w : world) :
  reg_get id (onlineUsers s) = Some u ->
  truthy (User.room u) = None ->
  in_room (rooms s) id room = true ->
  in_room (rooms (final (joinRoom id room2 w s))) id room = true.
Proof.
  intros Hget Hroom Hin. handler_steps. rewrite Hget. cbn. rewrite Hroom. cbn.
  now apply in_room_add_mono.
Qed.

(** X6: [registerUser] on a socket that is in a room resets the entry to no
    room but does not take the socket out of the room.  The socket stays a
    member: [leaveRoom] is then ignored, joining another room does not end
    the membership, and what is broadcast to the room keeps reaching it. *)
Theorem reregistered_socket_stays_in_room
        (s : state) (id : socket_id) (name room : string) :
  in_room (rooms s) id room = true ->
  let s1 := final (registerUser id name s) in
  reg_get id (onlineUsers s1) = Some (User.mk name None)
  /\ in_room (rooms s1) id room = true
  /\ (forall w, leaveRoom id w s1 = mkRun (Normal tt) s1 [])
  /\ (forall w room2,
        in_room (rooms (final (joinRoom id room2 w s1))) id room = true)
  /\ In id (receivers (rooms s1) (io_to room)).
Proof.
  intros Hin. cbn zeta.
  assert (Hget : reg_get id (onlineUsers (final (registerUser id name s)))
                 = Some (User.mk name None)).
  { handler_steps. apply reg_get_set_same. }
  split; [exact Hget|]. split; [exact Hin|]. split; [|split].
  - intros w. now apply (no_room_ignored _ id (User.mk name None) None w).
  - intros w room2.
    now apply (joinRoom_without_leave _ id (User.mk name None)).
  - cbn. now apply sockets_in_In.
Qed.

Lemma reregistered_socket_stays_in_room_witness :
  reg_get "s1" (onlineUsers (process alice_again init))
  = Some (User.mk "alice" None)
  /\ In "s1" (receivers (rooms (process alice_again init)) (io_to "sports")).
Proof.
  pose proof (reregistered_socket_stays_in_room
                (process two_in_sports init) "s1" "alice" "sports" eq_refl)
    as H.
  cbn zeta in H. destruct H as [H1 [_ [_ [_ H2]]]].
  split; [exact H1|exact H2].
Defined.

(** X7: the room named by the empty string can be joined but never left or
    used: the session is listed in it, yet [leaveRoom] and [groupMessage]
    take it for a session without a room and do nothing, and joining
    another room does not take the socket out of it. *)
Theorem empty_room_cannot_be_left
        (s : state) (id : socket_id) (u : User.t) (w : world) :
  reg_get id (onlineUsers s) = Some u ->
  let s1 := final (joinRoom id "" w s) in
  reg_get id (onlineUsers s1) = Some (User.mk (User.username u) (Some ""))
  /\ In (User.username u) (usersInRoom (onlineUsers s1) "")
  /\ in_room (rooms s1) id "" = true
  /\ (forall w', leaveRoom id w' s1 = mkRun (Normal tt) s1 [])
  /\ (forall data w', groupMessage id data w' s1 = mkRun (Normal tt) s1 [])
  /\ (forall w' room,
        in_room (rooms (final (joinRoom id room w' s1))) id "" = true).
Proof.
  intros Hget0. cbn zeta.
  assert (Hget : reg_get id (onlineUsers (final (joinRoom id "" w s)))
                 = Some (User.mk (User.username u) (Some ""))).
  { handler_steps. rewrite Hget0. cbn. case_split; apply reg_get_set_same. }
  assert (Hin : in_room (rooms (final (joinRoom id "" w s))) id "" = true).
  { handler_steps. rewrite Hget0. cbn. case_split; apply in_room_add_same. }
  split; [exact Hget|]. split; [|split; [exact Hin|split; [|split]]].
  - apply usersInRoom_In. exists id, (User.mk (User.username u) (Some "")).
    auto using reg_get_In.
  - intros w'.
    now apply (no_room_ignored _ id (User.mk (User.username u) (Some "")) None w').
  - intros data w'.
    now apply (no_room_ignored _ id (User.mk (User.username u) (Some "")) data w').
  - intros w' room.
    now apply (joinRoom_without_leave _ id (User.mk (User.username u) (Some ""))).
Qed.

Lemma empty_room_cannot_be_left_witness :
  leaveRoom "s1" w0 (final (joinRoom "s1" "" w0 (process alice_alone init)))
  = mkRun (Normal tt)
      (final (joinRoom "s1" "" w0 (process alice_alone init))) [].
Proof.
  pose proof (empty_room_cannot_be_left (process alice_alone init) "s1"
                (User.mk "alice" None) w0 eq_refl) as H.
  cbn zeta in H. destruct H as [_ [_ [_ [H _]]]]. apply H.
Defined.

(** ** Messages and the stores *)

(** X8: the message and typing handlers never touch presence: a
    [groupMessage] or a [privateMessage] leaves the registry and the rooms
    as they are, whatever its payload and whatever the store answers, and a
    [typing] or [stopTyping] leaves the whole state as it is. *)
Theorem messages_leave_presence
        (s : state) (id : socket_id) (e : event) (w : world) :
  match e with
  | Ev_groupMessage _ | Ev_privateMessage _ =>
      onlineUsers (final (handle id e w s)) = onlineUsers s
      /\ rooms (final (handle id e w s)) = rooms s
  | Ev_typing _ | Ev_stopTyping _ => final (handle id e w s) = s
  | _ => True
  end.
Proof.
  destruct e; auto; handler_steps; case_split; auto.
Qed.

(** X9: the two collections are append-only for the handlers: over any run
    of events, from any state, the stored group messages and the stored
    private messages of the start are still there, in place, and what is
    new comes after them. *)
Theorem stores_only_grow (ins : list input) (s : state) :
  exists g p,
    groupMessages (process ins s) = groupMessages s ++ g
    /\ privateMessages (process ins s) = privateMessages s ++ p.
Proof.
  revert s. induction ins as [|i ins IH]; intros s; cbn.
  - exists [], []. split; now rewrite app_nil_r.
  - destruct (step_stores_grow s i) as [g1 [p1 [Hg1 Hp1]]].
    destruct (IH (step s i)) as [g2 [p2 [Hg2 Hp2]]].
    exists (g1 ++ g2), (p1 ++ p2). unfold process in Hg2, Hp2.
    rewrite Hg2, Hp2, Hg1, Hp1, <- !app_assoc. split; reflexivity.
Qed.

(** X10: a message that cannot be built or stored leaves nothing behind.
    For a registered session, a [privateMessage] without payload throws a
    [TypeError], and one whose [save] is rejected throws the store's error;
    for a session in a room a [groupMessage] without payload throws too; in
    each case nothing is stored, nothing is sent, not even the echo to the
    sender, and the state is the one before. *)
Theorem failed_message_leaves_nothing
        (s : state) (id : socket_id) (u : User.t) (w : world) :
  reg_get id (onlineUsers s) = Some u ->
  privateMessage id None w s = mkRun (Thrown TypeError) s []
  /\ (forall d, save w = None ->
                privateMessage id (Some d) w s = mkRun (Thrown StoreError) s [])
  /\ (forall room, truthy (User.room u) = Some room ->
                   groupMessage id None w s = mkRun (Thrown TypeError) s []).
Proof.
  intros Hget. split; [|split].
  - handler_steps. rewrite Hget. reflexivity.
  - intros d Hsave. handler_steps. rewrite Hget. cbn. rewrite Hsave. reflexivity.
  - intros room Hroom. handler_steps. rewrite Hget. cbn. rewrite Hroom.
    reflexivity.
Qed.

Lemma failed_message_leaves_nothing_witness :
  privateMessage "s1" (Some (Data.mk (Some "bob") (Some "hey"))) w_down
    (process two_in_sports init)
  = mkRun (Thrown StoreError) (process two_in_sports init) [].
Proof.
  pose proof (failed_message_leaves_nothing (process two_in_sports init) "s1"
                (User.mk "alice" (Some "sports")) w_down eq_refl) as H.
  destruct H as [_ [H _]]. apply H. reflexivity.
Defined.

(** X11: a socket without an entry can only register.  Every other event
    of it is ignored, with no exception even when the payload is missing,
    since each handler looks the session up before it reads the payload:
    the state stays as it is and nothing is sent or stored; [registerUser]
    creates the entry, with no room. *)
Theorem unregistered_socket_is_ignored
        (s : state) (id : socket_id) (e : event) (w : world) :
  reg_get id (onlineUsers s) = None ->
  match e with
  | Ev_registerUser name =>
      reg_get id (onlineUsers (final (handle id e w s)))
      = Some (User.mk name None)
  | Ev_disconnect => disconnect id w s = mkRun (Normal tt) s []
  | _ => handle id e w s = mkRun (Normal tt) s []
  end.
Proof.
  intros Hget. pose proof (unknown_session_ignored s id e w Hget) as H.
  destruct e; auto. handler_steps. apply reg_get_set_same.
Qed.

Lemma unregistered_socket_is_ignored_witness :
  handle "s9" (Ev_typing None) w0 (process two_in_sports init)
  = mkRun (Normal tt) (process two_in_sports init) [].
Proof.
  apply (unregistered_socket_is_ignored (process two_in_sports init) "s9"
           (Ev_typing None) w0).
  reflexivity.
Defined.

(** ** The catalog *)

Lemma catalog_names_truthy (room : string) :
  In room ROOMS -> truthy (Some room) = Some room.
Proof.
  unfold ROOMS. intros H.
  repeat (destruct H as [<-|H]; [reflexivity|]). contradiction.
Qed.

Lemma receive_open (sv : server) (i : input) (id : socket_id) :
  is_open sv (from i) = true -> closes (ev i) = false ->
  is_open (receive sv i) id = is_open sv id.
Proof.
  intros Hopen Hcl. unfold receive. rewrite Hopen.
  unfold is_open. cbn [sockets]. now rewrite Hcl.
Qed.

Lemma joinRoom_saves_nothing (s : state) (id : socket_id) (room : string)
      (w : world) :
  awaiting (trace (joinRoom id room w s)) = []
  /\ groupMessages (final (joinRoom id room w s)) = groupMessages s.
Proof.
  handler_steps. case_split; split; reflexivity.
Qed.

(** X12: every room of the catalog works end to end: when a registered
    session joins a room of [ROOMS] and then sends a group message that the
    store accepts, the message is stored under that room and its save is
    pending; when the save resolves before anything else happens, the
    message is broadcast to that room, the sender among the receivers. *)
Theorem catalog_room_carries_messages
        (sv : server) (id : socket_id) (u : User.t) (room : string)
        (d : Data.t) (w w' : world) (date : Z) :
  served sv ->
  In room ROOMS ->
  reg_get id (onlineUsers (st sv)) = Some u ->
  save w' = Some date ->
  let sv1 := receive sv (mkInput id (Ev_joinRoom room) w) in
  let sv2 := receive sv1 (mkInput id (Ev_groupMessage (Some d)) w') in
  let doc := GroupMessage.mk (User.username u) room (Data.message d) date in
  groupMessages (st sv2) = groupMessages (st sv) ++ [doc]
  /\ pending sv2 = pending sv ++ [mkTask id None (group_saved doc)]
  /\ exists to,
       trace (resume sv2 (mkTask id None (group_saved doc)))
       = [ Emit (io_to room)
             (Pkt.roomMessage (User.username u) (Data.message d) date) to ]
       /\ In id to.
Proof.
  intros Hserved Hcat Hget0 Hsave. cbn zeta.
  destruct (served_sound sv Hserved) as [_ [Hopen _]].
  pose proof (Hopen id u Hget0) as Hid.
  apply catalog_names_truthy in Hcat.
  remember (receive sv (mkInput id (Ev_joinRoom room) w)) as sv1 eqn:Esv1.
  assert (Hst1 : st sv1 = final (joinRoom id room w (st sv))).
  { subst sv1. now rewrite receive_st by exact Hid. }
  assert (Hp1 : pending sv1 = pending sv).
  { subst sv1. rewrite receive_pending by auto. cbn [handle].
    destruct (joinRoom_saves_nothing (st sv) id room w) as [-> _].
    apply app_nil_r. }
  assert (Hid1 : is_open sv1 id = true).
  { subst sv1. now rewrite receive_open. }
  assert (Hget : reg_get id (onlineUsers (st sv1))
                 = Some (User.mk (User.username u) (Some room))).
  { rewrite Hst1. handler_steps. rewrite Hget0. cbn.
    case_split; apply reg_get_set_same. }
  assert (Hin : in_room (rooms (st sv1)) id room = true).
  { rewrite Hst1. handler_steps. rewrite Hget0. cbn.
    case_split; apply in_room_add_same. }
  assert (Hg1 : groupMessages (st sv1) = groupMessages (st sv)).
  { rewrite Hst1. apply joinRoom_saves_nothing. }
  clear Esv1 Hst1.
  rewrite receive_pending by auto.
  assert (Hst2 : st (receive sv1 (mkInput id (Ev_groupMessage (Some d)) w'))
                 = final (groupMessage id (Some d) w' (st sv1))).
  { now rewrite receive_st by exact Hid1. }
  unfold resume. rewrite Hst2. cbn [handle].
  unfold object_of. cbn [held owner saved].
  handler_steps. rewrite Hget. cbn. rewrite Hcat. cbn. rewrite Hsave. cbn.
  rewrite Hget, Hg1, Hp1. cbn.
  repeat split. eexists. split; [reflexivity|]. now apply sockets_in_In.
Qed.

Lemma catalog_room_carries_messages_witness :
  let sv := serve alice_alone_live boot in
  let sv1 := receive sv (mkInput "s1" (Ev_joinRoom "nodeJS") w0) in
  let sv2 := receive sv1 (mkInput "s1"
                            (Ev_groupMessage (Some (Data.mk None (Some "hi"))))
                            w0) in
  exists to,
    trace (resume sv2
             (mkTask "s1" None
                (group_saved
                   (GroupMessage.mk "alice" "nodeJS" (Some "hi") 1001))))
    = [ Emit (io_to "nodeJS") (Pkt.roomMessage "alice" (Some "hi") 1001) to ]
    /\ In "s1" to.
Proof.
  cbn zeta.
  apply (catalog_room_carries_messages (serve alice_alone_live boot) "s1"
           (User.mk "alice" None) "nodeJS" (Data.mk None (Some "hi"))
           w0 w0 1001%Z).
  - exists alice_alone_live. reflexivity.
  - unfold ROOMS. cbn. tauto.
  - reflexivity.
  - reflexivity.
Defined.

(** * The history routes *)

(** ** Sorting by date *)

Section SortOn.

Context {A : Type} (date : A -> Z).

Lemma insert_on_perm (m : A) (l : list A) :
  Permutation (insert_on date m l) (m :: l).
Proof.
  induction l as [|x l IH]; cbn; auto.
  destruct (date m <=? date x)%Z; auto.
  rewrite IH. apply perm_swap.
Qed.

Lemma sort_on_perm (l : list A) : Permutation (sort_on date l) l.
Proof.
  induction l as [|x l IH]; cbn; auto.
  rewrite insert_on_perm. now constructor.
Qed.

Lemma insert_on_ascending (m : A) (l : list A) :
  ascending date l -> ascending date (insert_on date m l).
Proof.
  unfold ascending. induction l as [|x l IH]; cbn; intros Hs.
  - repeat constructor.
  - apply StronglySorted_inv in Hs as [Hl Hx].
    destruct (Z.leb_spec (date m) (date x)) as [Hle|Hlt].
    + constructor; [constructor; auto|].
      constructor; auto.
      eapply Forall_impl; [|exact Hx]. cbn. intros y Hy. lia.
    + constructor; auto.
      rewrite (insert_on_perm m l). constructor; [lia|exact Hx].
Qed.

Lemma sort_on_ascending (l : list A) : ascending date (sort_on date l).
Proof.
  induction l as [|x l IH]; cbn.
  - constructor.
  - now apply insert_on_ascending.
Qed.

Lemma firstn_ascending (n : nat) (l : list A) :
  ascending date l -> ascending date (firstn n l).
Proof.
  unfold ascending. revert n. induction l as [|x l IH]; intros [|n] Hs; cbn;
    try constructor.
  - apply IH. now apply StronglySorted_inv in Hs.
  - apply StronglySorted_inv in Hs as [_ Hx].
    rewrite <- (firstn_skipn n l) in Hx. now apply Forall_app in Hx.
Qed.

Lemma in_firstn (n : nat) (l : list A) (x : A) :
  In x (firstn n l) -> In x l.
Proof.
  intros H. rewrite <- (firstn_skipn n l). apply in_or_app. now left.
Qed.

(** A document among the first [n] of an ascending list has fewer than [n]
    strictly older documents in the list. *)
Lemma older_than_firstn (n : nat) (l : list A) (m : A) :
  ascending date l -> In m (firstn n l) ->
  length (older_than date m l) < n.
Proof.
  unfold ascending, older_than. revert n.
  induction l as [|x l IH]; intros [|n] Hs Hin; cbn in *; try contradiction.
  apply StronglySorted_inv in Hs as [Hl Hx].
  destruct Hin as [->|Hin].
  - rewrite Z.ltb_irrefl.
    assert (Hnone : filter (fun x => (date x <? date m)%Z) l = []).
    { clear IH Hl. induction l as [|y l IHl]; cbn; auto.
      inversion Hx as [|? ? Hy Hrest]; subst.
      destruct (Z.ltb_spec (date y) (date m)); [lia|]. auto. }
    rewrite Hnone. cbn. lia.
  - specialize (IH n Hl Hin).
    destruct (date x <? date m)%Z; cbn; lia.
Qed.

Lemma older_than_perm (m : A) (l l' : list A) :
  Permutation l l' ->
  length (older_than date m l) = length (older_than date m l').
Proof.
  unfold older_than. induction 1; cbn; auto.
  - destruct (date x <? date m)%Z; cbn; auto.
  - destruct (date x <? date m)%Z, (date y <? date m)%Z; cbn; auto.
  - congruence.
Qed.

(** The first [n] of the sorted list leave out every document that has
    [n] strictly older ones. *)
Lemma firstn_sort_drops (n : nat) (l : list A) (m : A) :
  n <= length (older_than date m l) ->
  ~ In m (firstn n (sort_on date l)).
Proof.
  intros Hn Hin.
  apply older_than_firstn in Hin; [|apply sort_on_ascending].
  rewrite (older_than_perm m _ _ (sort_on_perm l)) in Hin. lia.
Qed.

Lemma firstn_sort_all (n : nat) (l : list A) :
  length l <= n -> Permutation (firstn n (sort_on date l)) l.
Proof.
  intros Hn. rewrite firstn_all2.
  - apply sort_on_perm.
  - now rewrite (Permutation_length (sort_on_perm l)).
Qed.

End SortOn.

Lemma sort_by_date_on (l : list PrivateMessage.t) :
  sort_by_date l = sort_on PrivateMessage.date_sent l.
Proof.
  unfold sort_by_date, sort_on. induction l as [|x l IH]; cbn; auto.
  rewrite IH. generalize (fold_right (insert_on PrivateMessage.date_sent) [] l).
  intros s. induction s as [|y s IHs]; cbn; auto. now rewrite IHs.
Qed.

Lemma between_spec (a b : string) (m : PrivateMessage.t) :
  between a b m = true <->
  (PrivateMessage.from_user m = a /\ PrivateMessage.to_user m = Some b)
  \/ (PrivateMessage.from_user m = b /\ PrivateMessage.to_user m = Some a).
Proof.
  unfold between, strict_eq.
  rewrite orb_true_iff, !andb_true_iff, !String.eqb_eq.
  destruct (PrivateMessage.to_user m) as [t|].
  - rewrite !String.eqb_eq. intuition congruence.
  - intuition congruence.
Qed.

(** ** What the routes return *)

(** X13: both history routes answer in ascending order of [date_sent]. *)
Theorem histories_ascending
        (groups : list GroupMessage.t) (privates : list PrivateMessage.t)
        (room a b : string) :
  ascending GroupMessage.date_sent (room_history groups room)
  /\ ascending PrivateMessage.date_sent (private_history privates a b).
Proof.
  unfold room_history, private_history. rewrite sort_by_date_on.
  split; apply firstn_ascending, sort_on_ascending.
Qed.

(** X14: a history never has more than 100 documents, and each of them is a
    document of the collection that the filter selects: a message of the
    room asked for, or a message from one of the two users to the other. *)
Theorem histories_bounded_and_selective
        (groups : list GroupMessage.t) (privates : list PrivateMessage.t)
        (room a b : string) :
  length (room_history groups room) <= 100
  /\ length (private_history privates a b) <= 100
  /\ (forall m, In m (room_history groups room) ->
                In m groups /\ GroupMessage.room m = room)
  /\ (forall m, In m (private_history privates a b) ->
                In m privates
                /\ ((PrivateMessage.from_user m = a
                     /\ PrivateMessage.to_user m = Some b)
                    \/ (PrivateMessage.from_user m = b
                        /\ PrivateMessage.to_user m = Some a))).
Proof.
  unfold room_history, private_history. rewrite sort_by_date_on.
  split; [apply firstn_le_length|]. split; [apply firstn_le_length|]. split.
  - intros m Hin. apply in_firstn in Hin.
    apply (Permutation_in _ (sort_on_perm _ _)) in Hin.
    apply filter_In in Hin as [Hin Hm]. split; auto.
    now apply String.eqb_eq in Hm.
  - intros m Hin. apply in_firstn in Hin.
    apply (Permutation_in _ (sort_on_perm _ _)) in Hin.
    apply filter_In in Hin as [Hin Hm]. split; auto.
    now apply between_spec.
Qed.

(** X15: while the filter selects at most 100 documents the history is
    complete: it holds exactly the selected documents, each as often as the
    collection has it. *)
Theorem histories_complete_up_to_limit
        (groups : list GroupMessage.t) (privates : list PrivateMessage.t)
        (room a b : string) :
  (length (filter (in_the_room room) groups) <= 100 ->
   Permutation (room_history groups room) (filter (in_the_room room) groups))
  /\ (length (filter (between a b) privates) <= 100 ->
      Permutation (private_history privates a b)
                  (filter (between a b) privates)).
Proof.
  unfold room_history, private_history. rewrite sort_by_date_on.
  split; intros H; now apply firstn_sort_all.
Qed.

Lemma histories_complete_up_to_limit_witness :
  Permutation
    (private_history
       [ PrivateMessage.mk "bob" (Some "alice") (Some "yo") 7;
         PrivateMessage.mk "alice" (Some "carol") (Some "hi") 6;
         PrivateMessage.mk "alice" (Some "bob") (Some "hey") 5 ]
       "alice" "bob")
    [ PrivateMessage.mk "bob" (Some "alice") (Some "yo") 7;
      PrivateMessage.mk "alice" (Some "bob") (Some "hey") 5 ].
Proof.
  apply (histories_complete_up_to_limit []
           [ PrivateMessage.mk "bob" (Some "alice") (Some "yo") 7;
             PrivateMessage.mk "alice" (Some "carol") (Some "hi") 6;
             PrivateMessage.mk "alice" (Some "bob") (Some "hey") 5 ]
           "" "alice" "bob").
  cbn. lia.
Defined.

(** X16: the limit keeps the oldest documents, not the latest: a document
    for which the filter selects 100 strictly older ones is not in the
    history, in the room route and in the private route alike. *)
Theorem histories_keep_the_oldest
        (groups : list GroupMessage.t) (privates : list PrivateMessage.t)
        (room a b : string) (g : GroupMessage.t) (p : PrivateMessage.t) :
  (100 <= length (older_than GroupMessage.date_sent g
                    (filter (in_the_room room) groups)) ->
   ~ In g (room_history groups room))
  /\ (100 <= length (older_than PrivateMessage.date_sent p
                       (filter (between a b) privates)) ->
      ~ In p (private_history privates a b)).
Proof.
  unfold room_history, private_history. rewrite sort_by_date_on.
  split; intros H; now apply firstn_sort_drops.
Qed.

Lemma histories_keep_the_oldest_witness :
  let old := map (fun n => GroupMessage.mk "alice" "sports" (Some "old")
                             (Z.of_nat n)) (seq 0 100) in
  let new := GroupMessage.mk "bob" "sports" (Some "new") 1000 in
  ~ In new (room_history (old ++ [new]) "sports").
Proof.
  cbn zeta.
  apply (histories_keep_the_oldest
           (map (fun n => GroupMessage.mk "alice" "sports" (Some "old")
                            (Z.of_nat n)) (seq 0 100)
            ++ [GroupMessage.mk "bob" "sports" (Some "new") 1000])
           [] "sports" "" ""
           (GroupMessage.mk "bob" "sports" (Some "new") 1000)
           (PrivateMessage.mk "" None None 0)).
  vm_compute. lia.
Defined.

(** ** A stored message in the history *)

Lemma firstn_sort_last {A : Type} (date : A -> Z) (f : A -> bool)
      (l : list A) (m : A) (n : nat) :
  f m = true -> length (filter f l) < n ->
  In m (firstn n (sort_on date (filter f (l ++ [m])))).
Proof.
  intros Hm Hlen.
  assert (Hle : length (filter f (l ++ [m])) <= n).
  { rewrite filter_app, length_app. cbn. rewrite Hm. cbn. lia. }
  apply (Permutation_in m (Permutation_sym (firstn_sort_all date n _ Hle))).
  apply filter_In. split; auto. apply in_or_app. right. now left.
Qed.

(** X17: a private message that the store accepted is in the history of the
    pair, asked in either order, as long as fewer than 100 earlier messages
    between the two are stored. *)
Theorem stored_private_message_in_history
        (s : state) (id : socket_id) (u : User.t) (d : Data.t) (w : world)
        (date : Z) (b : string) :
  reg_get id (onlineUsers s) = Some u ->
  save w = Some date ->
  Data.to_user d = Some b ->
  length (filter (between (User.username u) b) (privateMessages s)) < 100 ->
  let doc := PrivateMessage.mk (User.username u) (Some b) (Data.message d) date in
  let stored := privateMessages (final (privateMessage id (Some d) w s)) in
  In doc (private_history stored (User.username u) b)
  /\ In doc (private_history stored b (User.username u)).
Proof.
  intros Hget Hsave Hto Hlen. cbn zeta.
  assert (Hstored : privateMessages (final (privateMessage id (Some d) w s))
                    = privateMessages s
                      ++ [PrivateMessage.mk (User.username u) (Some b)
                            (Data.message d) date]).
  { handler_steps. rewrite Hget. cbn. rewrite Hsave. cbn. rewrite Hto.
    case_split; reflexivity. }
  rewrite Hstored.
  assert (Hin : In (PrivateMessage.mk (User.username u) (Some b)
                      (Data.message d) date)
                   (private_history
                      (privateMessages s
                       ++ [PrivateMessage.mk (User.username u) (Some b)
                             (Data.message d) date])
                      (User.username u) b)).
  { unfold private_history. rewrite sort_by_date_on.
    apply firstn_sort_last; auto.
    apply between_spec. left. split; reflexivity. }
  split; [exact Hin|].
  unfold private_history in *.
  rewrite (filter_ext (between b (User.username u)) (between (User.username u) b));
    [exact Hin|].
  intros m. unfold between. apply orb_comm.
Qed.

Lemma stored_private_message_in_history_witness :
  In (PrivateMessage.mk "alice" (Some "carol") (Some "hey") 1001)
     (private_history
        (privateMessages
           (final (privateMessage "s1"
                     (Some (Data.mk (Some "carol") (Some "hey"))) w0
                     (process two_in_sports init))))
        "carol" "alice").
Proof.
  apply (stored_private_message_in_history (process two_in_sports init) "s1"
           (User.mk "alice" (Some "sports"))
           (Data.mk (Some "carol") (Some "hey")) w0 1001%Z "carol").
  - reflexivity.
  - reflexivity.
  - reflexivity.
  - vm_compute. lia.
Defined.

(** X18: a group message that the store accepted is in the history of its
    room as long as fewer than 100 earlier messages of the room are
    stored. *)
Theorem stored_group_message_in_history
        (s : state) (id : socket_id) (u : User.t) (room : string) (d : Data.t)
        (w : world) (date : Z) :
  reg_get id (onlineUsers s) = Some u ->
  truthy (User.room u) = Some room ->
  save w = Some date ->
  length (filter (in_the_room room) (groupMessages s)) < 100 ->
  In (GroupMessage.mk (User.username u) room (Data.message d) date)
     (room_history (groupMessages (final (groupMessage id (Some d) w s))) room).
Proof.
  intros Hget Hroom Hsave Hlen.
  assert (Hstored : groupMessages (final (groupMessage id (Some d) w s))
                    = groupMessages s
                      ++ [GroupMessage.mk (User.username u) room
                            (Data.message d) date]).
  { handler_steps. rewrite Hget. cbn. rewrite Hroom. cbn. rewrite Hsave.
    reflexivity. }
  rewrite Hstored. unfold room_history.
  apply firstn_sort_last; auto.
  unfold in_the_room. cbn. apply String.eqb_refl.
Qed.

Lemma stored_group_message_in_history_witness :
  In (GroupMessage.mk "alice" "sports" (Some "hi") 1001)
     (room_history
        (groupMessages
           (final (groupMessage "s1" (Some (Data.mk None (Some "hi"))) w0
                     (process two_in_sports init))))
        "sports").
Proof.
  apply (stored_group_message_in_history (process two_in_sports init) "s1"
           (User.mk "alice" (Some "sports")) "sports"
           (Data.mk None (Some "hi")) w0 1001%Z).
  - reflexivity.
  - reflexivity.
  - reflexivity.
  - vm_compute. lia.
Defined.

(** * Accounts *)

Lemma findOne_None (name : string) (users : list Account.t) :
  findOne name users = None <-> ~ In name (map Account.username users).
Proof.
  unfold findOne. induction users as [|u users IH]; cbn; [tauto|].
  destruct (String.eqb_spec (Account.username u) name) as [E|E].
  - split; [discriminate | tauto].
  - rewrite IH. tauto.
Qed.

Lemma findOne_Some (name : string) (users : list Account.t) (u : Account.t) :
  findOne name users = Some u -> In u users /\ Account.username u = name.
Proof.
  unfold findOne. intros H. apply find_some in H as [Hin E].
  apply String.eqb_eq in E. auto.
Qed.

Lemma findOne_last (name : string) (users : list Account.t) (u : Account.t) :
  findOne name users = None -> Account.username u = name ->
  findOne name (users ++ [u]) = Some u.
Proof.
  unfold findOne. intros Hnone Hname.
  induction users as [|x users IH]; cbn in *.
  - rewrite Hname, String.eqb_refl. reflexivity.
  - destruct (String.eqb (Account.username x) name); [discriminate|]. auto.
Qed.

(** What a signup does to the collection: nothing, or one account last,
    under a name that was free. *)
Lemma signup_adds (hash : string -> string -> string) (body : Body.t)
      (w : request_world) (users : list Account.t) :
  snd (signup hash body w users) = users
  \/ (findOne (Body.username body) users = None
      /\ fst (signup hash body w users) = created "User created successfully"
      /\ snd (signup hash body w users)
         = users ++ [Account.mk (Body.username body) (Body.firstname body)
                       (Body.lastname body)
                       (hash (salt w) (Body.password body))]).
Proof.
  unfold signup. destruct (db_down w); auto.
  destruct (findOne (Body.username body) users) eqn:Hfind; auto.
  destruct (save_user w); auto.
Qed.

Lemma signup_unique (hash : string -> string -> string) (body : Body.t)
      (w : request_world) (users : list Account.t) :
  NoDup (map Account.username users) ->
  NoDup (map Account.username (snd (signup hash body w users))).
Proof.
  intros Hnd. destruct (signup_adds hash body w users) as [->|[Hfree [_ ->]]];
    auto.
  rewrite map_app. cbn. apply findOne_None in Hfree.
  apply NoDup_rev in Hnd. rewrite <- (rev_involutive (_ ++ _)).
  apply NoDup_rev. rewrite rev_app_distr. cbn.
  constructor; auto. now rewrite <- in_rev.
Qed.

(** X19: signup keeps user names unique and accounts in place: over any
    sequence of signup requests served one after the other, a collection
    without two accounts under one name stays so, and the accounts it had
    are still there, unchanged and in front of the new ones. *)
Theorem signups_keep_usernames_unique
        (hash : string -> string -> string)
        (reqs : list (Body.t * request_world)) (users : list Account.t) :
  NoDup (map Account.username users) ->
  NoDup (map Account.username (signups hash reqs users))
  /\ exists added, signups hash reqs users = users ++ added.
Proof.
  revert users. induction reqs as [|[body w] reqs IH]; intros users Hnd; cbn.
  - split; auto. exists []. now rewrite app_nil_r.
  - destruct (IH _ (signup_unique hash body w users Hnd)) as [Hnd' [added E]].
    split; auto. rewrite E.
    destruct (signup_adds hash body w users) as [->|[_ [_ ->]]].
    + eauto.
    + rewrite <- app_assoc. eauto.
Qed.

Lemma signups_keep_usernames_unique_witness :
  NoDup (map Account.username
           (signups toy_hash
              [ (Body.mk "alice" "Alice" "A" "pw1", mkRequestWorld false "s" Stored);
                (Body.mk "alice" "Alicia" "B" "pw2", mkRequestWorld false "t" Stored);
                (Body.mk "bob" "Bob" "C" "pw3", mkRequestWorld false "u" Stored) ]
              [])).
Proof.
  apply (signups_keep_usernames_unique toy_hash
           [ (Body.mk "alice" "Alice" "A" "pw1", mkRequestWorld false "s" Stored);
             (Body.mk "alice" "Alicia" "B" "pw2", mkRequestWorld false "t" Stored);
             (Body.mk "bob" "Bob" "C" "pw3", mkRequestWorld false "u" Stored) ]
           []).
  constructor.
Defined.

(** X20: a signup under a name that is taken is refused: when the database
    answers, the reply is 400 "Username already exists" and the collection
    is the one before, whatever the rest of the request and whatever [save]
    would have done. *)
Theorem signup_refuses_taken_name
        (hash : string -> string -> string) (body : Body.t)
        (w : request_world) (users : list Account.t) :
  In (Body.username body) (map Account.username users) ->
  db_down w = false ->
  signup hash body w users = (error 400 "Username already exists", users).
Proof.
  intros Hin Hup. unfold signup. rewrite Hup.
  destruct (findOne (Body.username body) users) eqn:Hfind; auto.
  apply findOne_None in Hfind. contradiction.
Qed.

Lemma signup_refuses_taken_name_witness :
  signup toy_hash (Body.mk "alice" "Alicia" "B" "pw2")
    (mkRequestWorld false "t" Stored)
    [Account.mk "alice" "Alice" "A" "s$pw1"]
  = (error 400 "Username already exists",
     [Account.mk "alice" "Alice" "A" "s$pw1"]).
Proof.
  apply signup_refuses_taken_name.
  - cbn. now left.
  - reflexivity.
Defined.

(** X21: login succeeds only against a stored account of that name whose
    hash accepts the password, and answers with the name and first name of
    that account; when no account of the name accepts the password the
    reply is one and the same 401, whether the name is unknown or the
    password is wrong. *)
Theorem login_needs_a_matching_account
        (compare : string -> string -> bool) (body : Body.t)
        (w : request_world) (users : list Account.t) :
  db_down w = false ->
  (forall text name first,
      login compare body w users = logged_in text name first ->
      exists u, In u users
                /\ Account.username u = Body.username body
                /\ compare (Body.password body) (Account.password u) = true
                /\ name = Body.username body
                /\ first = Account.firstname u)
  /\ ((forall u, In u users ->
                 Account.username u = Body.username body ->
                 compare (Body.password body) (Account.password u) = false) ->
      login compare body w users = error 401 "Invalid username or password").
Proof.
  intros Hup. unfold login. rewrite Hup.
  destruct (findOne (Body.username body) users) as [u|] eqn:Hfind.
  - apply findOne_Some in Hfind as [Hin Hname].
    destruct (compare (Body.password body) (Account.password u)) eqn:Hc.
    + split.
      * intros text name first E. inversion E; subst. exists u. auto.
      * intros Hno. rewrite (Hno u Hin Hname) in Hc. discriminate.
    + split; [discriminate|reflexivity].
  - split; [discriminate|reflexivity].
Qed.

Lemma login_needs_a_matching_account_witness :
  login toy_compare (Body.mk "alice" "" "" "wrong")
    (mkRequestWorld false "" Stored)
    [Account.mk "alice" "Alice" "A" "s$pw1"]
  = login toy_compare (Body.mk "nobody" "" "" "pw1")
      (mkRequestWorld false "" Stored)
      [Account.mk "alice" "Alice" "A" "s$pw1"].
Proof.
  pose proof (login_needs_a_matching_account toy_compare
                (Body.mk "alice" "" "" "wrong")
                (mkRequestWorld false "" Stored)
                [Account.mk "alice" "Alice" "A" "s$pw1"] eq_refl) as [_ H].
  rewrite H; [reflexivity|].
  intros u [<-|[]] _. reflexivity.
Defined.

(** X22: signup and login fit together: after a signup that answered 201,
    a login with the same name and password against the collection it left
    succeeds with that name and first name, whenever the database answers
    and [bcrypt.compare] accepts the password against the hash that
    [bcrypt.hash] made of it. *)
Theorem signup_then_login
        (hash : string -> string -> string)
        (compare : string -> string -> bool)
        (body : Body.t) (w w' : request_world) (users : list Account.t) :
  fst (signup hash body w users) = created "User created successfully" ->
  db_down w' = false ->
  compare (Body.password body) (hash (salt w) (Body.password body)) = true ->
  login compare body w' (snd (signup hash body w users))
  = logged_in "Login successful" (Body.username body) (Body.firstname body).
Proof.
  intros Hcreated Hup Hcompare. unfold signup in *.
  destruct (db_down w); [discriminate|].
  destruct (findOne (Body.username body) users) eqn:Hfree; [discriminate|].
  destruct (save_user w); try discriminate. cbn.
  unfold login. rewrite Hup.
  rewrite (findOne_last (Body.username body) users
             (Account.mk (Body.username body) (Body.firstname body)
                (Body.lastname body) (hash (salt w) (Body.password body)))
             Hfree eq_refl).
  cbn. now rewrite Hcompare.
Qed.

Lemma signup_then_login_witness :
  login toy_compare (Body.mk "alice" "Alice" "A" "pw1")
    (mkRequestWorld false "" Stored)
    (snd (signup toy_hash (Body.mk "alice" "Alice" "A" "pw1")
            (mkRequestWorld false "s" Stored) []))
  = logged_in "Login successful" "alice" "Alice".
Proof.
  apply (signup_then_login toy_hash toy_compare
           (Body.mk "alice" "Alice" "A" "pw1")
           (mkRequestWorld false "s" Stored)
           (mkRequestWorld false "" Stored) []).
  - reflexivity.
  - reflexivity.
  - reflexivity.
Defined.
